(** * ResumeGen: the document-model construction of resumegen.py and
      cover_letter.py, embedded and verified.

    Text is a [string]: each [ascii] stands for one character of a Python
    [str] whose code point is below 256.  Python dictionaries read from JSON
    are records of optional fields (a field is [None] when the key is absent)
    or, for the flat cover-letter header, a [gmap]; values that are present
    have the types the data model gives them. *)

From Stdlib Require Import ZArith Ascii String List Sorting.Sorted Sorting.Permutation.
From stdpp Require Import gmap strings list.

Local Open Scope string_scope.
Local Open Scope nat_scope.

(** ** Python string primitives *)

Module Py.

(** [Py_UNICODE_ISSPACE] on code points below 256: what [str.strip] removes
    and what the regex class [\s] accepts. *)
Definition isspace (c : ascii) : bool :=
  let n := nat_of_ascii c in
  ((9 <=? n) && (n <=? 13)) || ((28 <=? n) && (n <=? 32))
  || (n =? 133) || (n =? 160).

(** [s[i:j]] for [0 <= i], [0 <= j]. *)
Definition slice (s : string) (i j : nat) : string := substring i (j - i) s.

(** [s[i:]]. *)
Definition slice_from (s : string) (i : nat) : string := slice s i (String.length s).

(** [s.startswith(p)]. *)
Fixpoint startswith (p s : string) : bool :=
  match p, s with
  | EmptyString, _ => true
  | String a p', String b s' => if Ascii.eqb a b then startswith p' s' else false
  | String _ _, EmptyString => false
  end.

(** The scan of [s.replace(old, new)] for a non-empty [old]: [skip] counts
    the characters of an occurrence still to be passed over. *)
Fixpoint replace_scan (old new s : string) (skip : nat) : string :=
  match s with
  | EmptyString => EmptyString
  | String c s' =>
      match skip with
      | S n => replace_scan old new s' n
      | O =>
          if startswith old s
          then new ++ replace_scan old new s' (String.length old - 1)
          else String c (replace_scan old new s' 0)
      end
  end.

(** With an empty [old], Python puts [new] before every character and at the
    end. *)
Fixpoint intersperse (new s : string) : string :=
  match s with
  | EmptyString => new
  | String c s' => new ++ String c (intersperse new s')
  end.

Definition replace (s old new : string) : string :=
  match old with
  | EmptyString => intersperse new s
  | String _ _ => replace_scan old new s 0
  end.

(** [s.split(sep)] for a one-character separator: never the empty list. *)
Fixpoint split (sep : ascii) (s : string) : list string :=
  match s with
  | EmptyString => [EmptyString]
  | String c s' =>
      if Ascii.eqb c sep then EmptyString :: split sep s'
      else match split sep s' with
           | l :: ls => String c l :: ls
           | [] => [String c EmptyString]
           end
  end.

Fixpoint lstrip (s : string) : string :=
  match s with
  | EmptyString => EmptyString
  | String c s' => if isspace c then lstrip s' else s
  end.

Fixpoint rstrip (s : string) : string :=
  match s with
  | EmptyString => EmptyString
  | String c s' =>
      match rstrip s' with
      | EmptyString => if isspace c then EmptyString else String c EmptyString
      | r => String c r
      end
  end.

(** [s.strip()]. *)
Definition strip (s : string) : string := rstrip (lstrip s).

(** [l.index(x)]: the first position of [x], [None] where Python raises
    [ValueError]. *)
Fixpoint index (x : string) (l : list string) : option nat :=
  match l with
  | [] => None
  | y :: l' => if String.eqb y x then Some 0 else option_map S (index x l')
  end.

(** [l[i - 1]] for [0 <= i]: the index -1 counts from the end. *)
Definition item_before (l : list string) (i : nat) : option string :=
  match i with
  | O => last l
  | S j => nth_error l j
  end.

(** [sub in s]. *)
Fixpoint contains (sub s : string) : bool :=
  startswith sub s ||
  match s with
  | EmptyString => false
  | String _ s' => contains sub s'
  end.

(** Truth value of a [str]: non-empty. *)
Definition truthy (s : string) : bool :=
  match s with EmptyString => false | String _ _ => true end.

End Py.

(** ** The fragment of Python's [re] the two patterns use

    A backtracking matcher with Python's priorities: a greedy repetition
    tries the longest run first, a lazy one the shortest.  Repetition is over
    a single character class, which is all the patterns contain. *)

Module Re.

Inductive regex : Type :=
| Lit (c : ascii)                         (* a literal character *)
| Class (p : ascii -> bool)               (* one character of a class *)
| Many (greedy : bool) (p : ascii -> bool) (* [p*] when greedy, [p*?] when lazy *)
| Cat (r1 r2 : regex)
| Group (r : regex).                      (* a capturing group *)

(** A match: its span and the text of its groups, in the order they close. *)
Record rmatch := Match { m_start : nat; m_end : nat; m_groups : list string }.

Section Matcher.
Context {R : Type}.

Fixpoint many_greedy (p : ascii -> bool) (s : string) (i : nat)
    (k : string -> nat -> option R) : option R :=
  match s with
  | String c s' =>
      if p c then
        match many_greedy p s' (S i) k with
        | Some r => Some r
        | None => k s i
        end
      else k s i
  | EmptyString => k s i
  end.

Fixpoint many_lazy (p : ascii -> bool) (s : string) (i : nat)
    (k : string -> nat -> option R) : option R :=
  match k s i with
  | Some r => Some r
  | None =>
      match s with
      | String c s' => if p c then many_lazy p s' (S i) k else None
      | EmptyString => None
      end
  end.

(** [exec r s i g k]: match [r] at the front of [s], which starts at
    position [i] of the text, with the groups [g] closed so far; [k] is
    the rest of the pattern. *)
Fixpoint exec (r : regex) (s : string) (i : nat) (g : list string)
    (k : string -> nat -> list string -> option R) : option R :=
  match r with
  | Lit c =>
      match s with
      | String c' s' => if Ascii.eqb c c' then k s' (S i) g else None
      | EmptyString => None
      end
  | Class p =>
      match s with
      | String c' s' => if p c' then k s' (S i) g else None
      | EmptyString => None
      end
  | Many true p => many_greedy p s i (fun s' i' => k s' i' g)
  | Many false p => many_lazy p s i (fun s' i' => k s' i' g)
  | Cat r1 r2 => exec r1 s i g (fun s' i' g' => exec r2 s' i' g' k)
  | Group r1 =>
      exec r1 s i g (fun s' i' g' => k s' i' (g' ++ [substring 0 (i' - i) s])%list)
  end.
End Matcher.

(** [pattern.match] at position [i], where [s] is the text from [i] on. *)
Definition match_at (r : regex) (s : string) (i : nat) : option rmatch :=
  exec r s i [] (fun _ e g => Some (Match i e g)).

(** The scan of [re.finditer] and [re.sub]: leftmost matches, none
    overlapping.  [skip] counts the characters of the last match still to be
    passed over. *)
Fixpoint scan (r : regex) (s : string) (i skip : nat) : list rmatch :=
  match s with
  | EmptyString =>
      match skip, match_at r s i with
      | O, Some m => [m]
      | _, _ => []
      end
  | String _ s' =>
      match skip with
      | S n => scan r s' (S i) n
      | O =>
          match match_at r s i with
          | Some m => m :: scan r s' (S i) (m_end m - i - 1)
          | None => scan r s' (S i) 0
          end
      end
  end.

Definition finditer (r : regex) (text : string) : list rmatch := scan r text 0 0.

(** [match.group(n)], [n >= 1]. *)
Definition group (m : rmatch) (n : nat) : string := nth (n - 1) (m_groups m) "".

(** [re.sub(r, repl, text)] with the replacement computed from the match. *)
Definition sub (r : regex) (repl : rmatch -> string) (text : string) : string :=
  let '(last_pos, out) :=
    fold_left
      (fun '(last_pos, out) m =>
         (m_end m, out ++ Py.slice text last_pos (m_start m) ++ repl m))
      (finditer r text) (0, "") in
  out ++ Py.slice_from text last_pos.

(** Pattern syntax. *)
Fixpoint lit (s : string) : regex :=
  match s with
  | EmptyString => Many true (fun _ => false)
  | String c EmptyString => Lit c
  | String c s' => Cat (Lit c) (lit s')
  end.

Definition plus (p : ascii -> bool) : regex := Cat (Class p) (Many true p).
Definition dot (c : ascii) : bool := negb (Ascii.eqb c "010").
Definition not_gt (c : ascii) : bool := negb (Ascii.eqb c ">").
Definition dquote : ascii := ascii_of_nat 34.
Definition quote (c : ascii) : bool := Ascii.eqb c "'" || Ascii.eqb c dquote.

Fixpoint cat (rs : list regex) : regex :=
  match rs with
  | [] => Many true (fun _ => false)
  | [r] => r
  | r :: rs' => Cat r (cat rs')
  end.

End Re.

(** ** The document under construction, exceptions and effects *)

(** A run of a paragraph: plain text, or a hyperlink with its label and URL
    (underlined, in the theme's hyperlink colour). *)
Inductive run : Type :=
| Plain (text : string)
| Hyperlink (text url : string).

(** The branch of the cover-letter classifier that created a paragraph, under
    the names the specification gives the roles; [Bullet] is a resume bullet. *)
Inductive role : Type := Salutation | Closing | SignatureName | HeaderLine | Body | Bullet.

(** A paragraph of the document: style, runs, and the spacing before and
    after it (in points) as the document holds it. *)
Record paragraph : Type := Paragraph {
  p_style : string;
  p_runs : list run;
  p_role : role;
  space_before : option nat;
  space_after : option nat
}.

Inductive block : Type :=
| Heading (text : string) (level : nat)
| Para (p : paragraph).

Inductive exn : Type :=
| KeyError (key : string)
| ValueError (msg : string).

(** [str(e)], for keys and items without quotes or escapes. *)
Definition exn_str (e : exn) : string :=
  match e with
  | KeyError k => "'" ++ k ++ "'"
  | ValueError m => m
  end.

Inductive level : Type := INFO | ERROR | CRITICAL.

(** What a run of either program can change: the document object, the files
    written by [save], the log. *)
Record state : Type := State {
  doc : list block;
  files : gmap string (list block);
  log : list (level * string)
}.

(** State and exceptions: the state an exception leaves behind is kept. *)
Definition M (A : Type) : Type := state -> (exn + A) * state.

Definition ret {A} (a : A) : M A := fun st => (inr a, st).

Definition bind {A B} (m : M A) (f : A -> M B) : M B :=
  fun st =>
    match m st with
    | (inl e, st') => (inl e, st')
    | (inr a, st') => f a st'
    end.

Definition raise {A} (e : exn) : M A := fun st => (inl e, st).

(** [try: m  except Exception as e: h e]. *)
Definition try_except {A} (m : M A) (h : exn -> M A) : M A :=
  fun st =>
    match m st with
    | (inl e, st') => h e st'
    | (inr a, st') => (inr a, st')
    end.

#[export] Instance M_ret : MRet M := @ret.
#[export] Instance M_bind : MBind M := fun A B f m => bind m f.

(** [for x in l: body x]. *)
Fixpoint for_each {A} (l : list A) (body : A -> M unit) : M unit :=
  match l with
  | [] => ret tt
  | x :: l' => body x ;; for_each l' body
  end.

(** [d[key]] on a dictionary entry that may be absent. *)
Definition getitem {A} (v : option A) (key : string) : M A :=
  match v with
  | Some a => ret a
  | None => raise (KeyError key)
  end.

Definition set_doc (d : list block) (st : state) : state :=
  State d (files st) (log st).

(** [Document()]: a new, empty document. *)
Definition new_document : M unit := fun st => (inr tt, set_doc [] st).

(** [doc.add_heading(text, level)]. *)
Definition add_heading (text : string) (lvl : nat) : M unit :=
  fun st => (inr tt, set_doc (doc st ++ [Heading text lvl]) st).

(** [doc.add_paragraph(...)]: appends the paragraph and returns a handle on
    it, its position in the document. *)
Definition add_paragraph (p : paragraph) : M nat :=
  fun st => (inr (List.length (doc st)), set_doc (doc st ++ [Para p]) st).

(** A mutation of the paragraph object behind a handle. *)
Definition update_paragraph (h : nat) (f : paragraph -> paragraph) : M unit :=
  fun st =>
    (inr tt,
     set_doc (alter (fun b => match b with Para p => Para (f p) | _ => b end) h (doc st)) st).

(** [doc.save(output_file)]. *)
Definition save (output_file : string) : M unit :=
  fun st => (inr tt, State (doc st) (<[output_file := doc st]> (files st)) (log st)).

Definition logger (l : level) (msg : string) : M unit :=
  fun st => (inr tt, State (doc st) (files st) (log st ++ [(l, msg)])).

(** [paragraph.add_run(text)]. *)
Definition add_run (p : paragraph) (r : run) : paragraph :=
  Paragraph (p_style p) (p_runs p ++ [r]) (p_role p) (space_before p) (space_after p).

(** The Python object [doc.add_paragraph] returns: the handle on the
    paragraph of the document, and the attributes assigned to the object
    itself.  A python-docx [Paragraph] has the properties [style], [text],
    [runs], [alignment] and [paragraph_format]; the spacing of a paragraph
    is set through [paragraph_format].  It has no property [space_before] or
    [space_after]: an assignment to one of these names gives the Python
    object a new attribute and changes neither the document nor what [save]
    writes. *)
Record proxy : Type := Proxy { handle : nat; attributes : gmap string nat }.

(** [para.name = Pt(points)] for a name that is no property of the class. *)
Definition set_attribute (para : proxy) (name : string) (points : nat) : M proxy :=
  ret (Proxy (handle para) (<[name := points]> (attributes para))).

(** ** [sorted(l, key=lambda x: x["id"], reverse=True)] *)

Section Sorted.
Context {A : Type}.

(** Insertion before the first element with a key that is not larger: an
    element put in stays ahead of the equal keys already there. *)
Fixpoint insert_desc (x : Z * A) (l : list (Z * A)) : list (Z * A) :=
  match l with
  | [] => [x]
  | y :: l' => if (x.1 <? y.1)%Z then y :: insert_desc x l' else x :: l
  end.

(** Stable sort by descending key. *)
Definition sort_desc (l : list (Z * A)) : list (Z * A) := foldr insert_desc [] l.

(** The keys are computed first, for every element in input order. *)
Fixpoint keyed (key : A -> option Z) (l : list A) : M (list (Z * A)) :=
  match l with
  | [] => ret []
  | x :: l' => k ← getitem (key x) "id"; r ← keyed key l'; ret ((k, x) :: r)
  end.

Definition sorted_by_id_reverse (key : A -> option Z) (l : list A) : M (list A) :=
  kl ← keyed key l; ret (map snd (sort_desc kl)).
End Sorted.

(** ** resumegen.py *)

Module ResumeGen.
Import Re.

(** The resume dictionary as [json.load] gives it. *)
Record Entry : Type := {
  entry_id : option Z;
  position : option string;
  date : option string;
  items : option (list string)
}.

Record Sect : Type := {
  sect_id : option Z;
  title : option string;
  content : option (list Entry)
}.

Record Header : Type := {
  name : option string;
  header_title : option string
}.

Record Resume : Type := {
  header : option Header;
  contents : option (list Sect)
}.

(** [<a\s+[^>]*href=['\dq](.*?)['\dq][^>]*>(.*?)</a>] *)
Definition hyperlink_pattern : regex :=
  cat [lit "<a"; plus Py.isspace; Many true not_gt; lit "href="; Class quote;
       Group (Many false dot); Class quote; Many true not_gt; lit ">";
       Group (Many false dot); lit "</a>"].

(** [<a\s+[^>]*>(.*?)</a>] *)
Definition tag_pattern : regex :=
  cat [lit "<a"; plus Py.isspace; Many true not_gt; lit ">";
       Group (Many false dot); lit "</a>"].

Definition add_hyperlink (p : paragraph) (text url : string) : paragraph :=
  add_run p (Hyperlink text url).

(** The loop of [process_text_with_hyperlinks] carries [last_pos] and the
    paragraph it appends to. *)
Definition process_match (text : string) (acc : nat * paragraph) (m : rmatch)
    : nat * paragraph :=
  let '(last_pos, p) := acc in
  let p := if last_pos <? m_start m
           then add_run p (Plain (Py.slice text last_pos (m_start m))) else p in
  let p := add_hyperlink p (group m 2) (group m 1) in
  (m_end m, p).

Definition process_text_with_hyperlinks (p : paragraph) (text : string) : paragraph :=
  let '(last_pos, p) :=
    fold_left (process_match text) (finditer hyperlink_pattern text) (0, p) in
  if last_pos <? String.length text
  then add_run p (Plain (Py.slice_from text last_pos))
  else p.

Definition remove_hyperlink (text : string) : string :=
  sub tag_pattern (fun m => group m 1) text.

Definition bullet_paragraph : paragraph := Paragraph "List Bullet" [] Bullet None None.

Definition render_item (item : Entry) : M unit :=
  p ← getitem (position item) "position";
  (if Py.truthy p then
     p ← getitem (position item) "position";
     let heading := remove_hyperlink p in
     d ← getitem (date item) "date";
     heading ← (if Py.truthy d
                then d ← getitem (date item) "date";
                     ret (heading ++ " - (" ++ d ++ ")")
                else ret heading);
     add_heading heading 2
   else ret tt) ;;
  bullets ← getitem (items item) "items";
  for_each bullets (fun bullet_item =>
    h ← add_paragraph bullet_paragraph;
    update_paragraph h (fun p => process_text_with_hyperlinks p bullet_item)).

Definition render_datum (datum : Sect) : M unit :=
  t ← getitem (title datum) "title";
  add_heading t 1 ;;
  c ← getitem (content datum) "content";
  sorted_items ← sorted_by_id_reverse entry_id c;
  for_each sorted_items render_item.

(** The body of the [try] of [generate_resume]. *)
Definition build_and_save (resume_data : Resume) (output_file : string) : M unit :=
  h ← getitem (header resume_data) "header";
  n ← getitem (name h) "name";
  add_heading n 0 ;;
  h ← getitem (header resume_data) "header";
  t ← getitem (header_title h) "title";
  add_heading t 3 ;;
  c ← getitem (contents resume_data) "contents";
  sorted_contents ← sorted_by_id_reverse sect_id c;
  for_each sorted_contents render_datum ;;
  save output_file ;;
  logger INFO ("Resume saved to " ++ output_file).

Definition generate_resume (resume_data : Resume) (output_file : string) : M unit :=
  try_except (build_and_save resume_data output_file)
    (fun e => logger ERROR ("Failed to generate resume: " ++ exn_str e) ;; raise e).

(** [ResumeGen(config)]: a generator owns a new document; applying the
    configured styles and margins adds no block to it. *)
Definition init : M unit := new_document.

(** The names of the specification. *)
Definition toRuns (t : string) : list run :=
  p_runs (process_text_with_hyperlinks bullet_paragraph t).

Definition stripToPlainText (t : string) : string := remove_hyperlink t.

End ResumeGen.

(** ** cover_letter.py *)

Module CoverLetter.

(** [data.items()]: the keys of the dictionary, in insertion order, with
    their values. *)
Definition dict : Type := list (string * string).

Fixpoint lookup_key (key : string) (d : dict) : option string :=
  match d with
  | [] => None
  | (k, v) :: d' => if String.eqb k key then Some v else lookup_key key d'
  end.

Definition nl : ascii := ascii_of_nat 10.

Definition normal (line : string) (r : role) (before after : option nat) : paragraph :=
  Paragraph "Normal" [Plain line] r before after.

(** The replacement loop over [data.items()]. *)
Definition substitute (data : dict) (template : string) : string :=
  fold_left (fun letter_content '(key, value) =>
               Py.replace letter_content ("$" ++ key) value)
            data template.

(** [line == data['name'] and lines[lines.index(line) - 1].strip() == 'Sincerely,'] *)
Definition follows_sincerely (data : dict) (lines : list string) (line : string) : M bool :=
  n ← getitem (lookup_key "name" data) "name";
  if String.eqb line n then
    match Py.index line lines with
    | None => raise (ValueError ("'" ++ line ++ "' is not in list"))
    | Some i =>
        match Py.item_before lines i with
        | Some prev => ret (String.eqb (Py.strip prev) "Sincerely,")
        | None => ret false
        end
    end
  else ret false.

Definition header_lines (data : dict) : M (list string) :=
  n ← getitem (lookup_key "name" data) "name";
  a ← getitem (lookup_key "address" data) "address";
  p ← getitem (lookup_key "phone" data) "phone";
  e ← getitem (lookup_key "email" data) "email";
  d ← getitem (lookup_key "date" data) "date";
  ret [n; a; p ++ " | " ++ e; d].

(** The body of the loop over the lines of the letter.  The role of a
    paragraph records the branch that made it; in the last branch it is
    known only after the paragraph has been added. *)
Definition render_line (data : dict) (lines : list string) (line : string) : M unit :=
  let line := Py.strip line in
  if negb (Py.truthy line) then ret tt
  else if String.eqb line "Dear Hiring Manager," then
    add_paragraph (normal line Salutation None None) ;; ret tt
  else if String.eqb line "Sincerely," then
    h ← add_paragraph (normal line Closing None None);
    set_attribute (Proxy h ∅) "space_before" 12 ;; ret tt
  else
    b ← follows_sincerely data lines line;
    if (b : bool) then
      add_paragraph (normal line SignatureName None None) ;; ret tt
    else
      h ← add_paragraph (normal line Body None None);
      hl ← header_lines data;
      if existsb (String.eqb line) hl
      then update_paragraph h (fun p => normal line HeaderLine None None) ;;
           set_attribute (Proxy h ∅) "space_after" 6 ;; ret tt
      else para ← set_attribute (Proxy h ∅) "space_before" 12;
           set_attribute para "space_after" 12 ;; ret tt.

(** The body of the [try] of [create_cover_letter]. *)
Definition build_and_save (data : dict) (template output_file : string) : M unit :=
  new_document ;;
  let letter_content := substitute data template in
  let lines := Py.split nl letter_content in
  for_each lines (render_line data lines) ;;
  save output_file ;;
  logger INFO ("Cover letter saved to " ++ output_file).

Definition create_cover_letter (data : dict) (template output_file : string) : M unit :=
  try_except (build_and_save data template output_file)
    (fun e => logger ERROR ("Failed to generate cover letter: " ++ exn_str e) ;; raise e).

(** The parsed JSON file: its [header] object, when it has one. *)
Record Json : Type := { json_header : option (gmap string string) }.

Definition required_fields : list string := ["name"; "phone"; "email"; "address"].

(** [if field not in header or not header[field]: raise ValueError(...)] *)
Definition check_field (header : gmap string string) (field : string) : M unit :=
  match header !! field with
  | Some v =>
      if Py.truthy v then ret tt
      else raise (ValueError ("Missing or empty field '" ++ field ++ "' in JSON header"))
  | None => raise (ValueError ("Missing or empty field '" ++ field ++ "' in JSON header"))
  end.

Definition validate (header : gmap string string) : M unit :=
  for_each required_fields (check_field header).

(** The body of the [try] of [main], after the template and the JSON file
    have been read; [today] is the formatted current date. *)
Definition main_body (template : string) (json_data : Json)
    (today position company output_file : string) : M unit :=
  let header := default ∅ (json_header json_data) in
  validate header ;;
  n ← getitem (header !! "name") "name";
  a ← getitem (header !! "address") "address";
  p ← getitem (header !! "phone") "phone";
  e ← getitem (header !! "email") "email";
  let data := [("name", n); ("address", a); ("phone", p); ("email", e);
               ("date", today); ("position", position); ("company", company)] in
  create_cover_letter data template output_file.

(** The [try] of [main] from the validation of the header on, with its
    handler, and the exit status it gives the process.  What comes before
    (the parser, the output path, the two files) is in
    [CoverLetterMain.main]. *)
Definition main (template : string) (json_data : Json)
    (today position company output_file : string) : M nat :=
  try_except
    (main_body template json_data today position company output_file ;; ret 0)
    (fun e => logger CRITICAL ("Application failed: " ++ exn_str e) ;; ret 1).

(** The template and the data of the specification's cover-letter example;
    only the name is given there. *)
Definition example_template : string :=
  "Dear Hiring Manager," ++ String nl (String nl "$name")
  ++ String nl (String nl "Sincerely,") ++ String nl "$name".

Definition example_data (address phone email date position company : string) : dict :=
  [("name", "Ann"); ("address", address); ("phone", phone); ("email", email);
   ("date", date); ("position", position); ("company", company)].

(** A required field the validation accepts: present and not empty. *)
Definition field_ok (header : gmap string string) (field : string) : bool :=
  match header !! field with
  | Some v => Py.truthy v
  | None => false
  end.

(** The first required field, in the order of [required_fields], that is
    missing or empty. *)
Definition first_missing (header : gmap string string) : option string :=
  List.find (fun field => negb (field_ok header field)) required_fields.

Definition missing_message (field : string) : string :=
  "Missing or empty field '" ++ field ++ "' in JSON header".

End CoverLetter.

(** ** The specification's reading of the two renderers

    Definitions written after the words of the specification (sections 3,
    4.1 and 4.2), to be compared with the embedding of the code above. *)

Module Spec.

(** The resume payload of the data model: every field present, the date of
    each entry too ([Payload] below has it optional). *)
Record Entry : Type := {
  entry_id : Z;
  position : string;
  date : string;
  items : list string
}.

Record Sect : Type := {
  sect_id : Z;
  title : string;
  content : list Entry
}.

Record Resume : Type := {
  name : string;
  header_title : string;
  contents : list Sect
}.

(** The dictionary [json.load] builds from such a payload. *)
Definition entry_dict (e : Entry) : ResumeGen.Entry :=
  ResumeGen.Build_Entry (Some (entry_id e)) (Some (position e)) (Some (date e))
    (Some (items e)).

Definition sect_dict (s : Sect) : ResumeGen.Sect :=
  ResumeGen.Build_Sect (Some (sect_id s)) (Some (title s))
    (Some (map entry_dict (content s))).

Definition resume_dict (r : Resume) : ResumeGen.Resume :=
  ResumeGen.Build_Resume
    (Some (ResumeGen.Build_Header (Some (name r)) (Some (header_title r))))
    (Some (map sect_dict (contents r))).

(** "Reordered by descending id": a stable descending sort of [l] by [key].
    [l'] holds the elements of [l], keys never increase along [l'], and
    elements with the same key keep their input order. *)
Definition stable_descending {A} (key : A -> Z) (l l' : list A) : Prop :=
  Permutation l l' /\
  StronglySorted (fun a b => (key b <= key a)%Z) l' /\
  forall k, filter (fun a => key a = k) l' = filter (fun a => key a = k) l.

Definition by_descending_id {A} (key : A -> Z) (l : list A) : list A :=
  map snd (sort_desc (map (fun a => (key a, a)) l)).

(** Step 4a: the entry's heading, when its position is not empty. *)
Definition entry_heading (e : Entry) : list block :=
  if Py.truthy (position e) then
    let heading := ResumeGen.stripToPlainText (position e) in
    [Heading (if Py.truthy (date e)
              then heading ++ " - (" ++ date e ++ ")" else heading) 2]
  else [].

(** Step 4b: one bulleted paragraph per item, its runs [toRuns item]. *)
Definition bullet (item : string) : block :=
  Para (Paragraph "List Bullet" (ResumeGen.toRuns item) Bullet None None).

Definition render_entry (e : Entry) : list block :=
  entry_heading e ++ map bullet (items e).

Definition render_section (s : Sect) : list block :=
  Heading (title s) 1 :: flat_map render_entry (by_descending_id entry_id (content s)).

Definition render (r : Resume) : list block :=
  Heading (name r) 0 :: Heading (header_title r) 3
  :: flat_map render_section (by_descending_id sect_id (contents r)).

(** Nesting as the heading levels encode it: a document is a title (level
    0), a subtitle (level 3), then sections; a section is a level-1 heading
    and its entries; an entry is at most one level-2 heading followed only by
    bullet paragraphs. *)
Definition is_bullet (b : block) : Prop :=
  match b with Para p => p_style p = "List Bullet" | Heading _ _ => False end.

Inductive entry_shape : list block -> Prop :=
| entry_headed text bs : Forall is_bullet bs -> entry_shape (Heading text 2 :: bs)
| entry_bare bs : Forall is_bullet bs -> entry_shape bs.

Inductive section_shape : list block -> Prop :=
| section_of text ess :
    Forall entry_shape ess -> section_shape (Heading text 1 :: concat ess).

Inductive document_shape : list block -> Prop :=
| document_of n t sss :
    Forall section_shape sss ->
    document_shape (Heading n 0 :: Heading t 3 :: concat sss).

(** The language of a pattern, and a text in which it occurs somewhere. *)
Inductive lang : Re.regex -> string -> Prop :=
| lang_lit c : lang (Re.Lit c) (String c "")
| lang_class (p : ascii -> bool) c : p c = true -> lang (Re.Class p) (String c "")
| lang_many_nil b p : lang (Re.Many b p) ""
| lang_many_cons b (p : ascii -> bool) c s :
    p c = true -> lang (Re.Many b p) s -> lang (Re.Many b p) (String c s)
| lang_cat r1 r2 s1 s2 : lang r1 s1 -> lang r2 s2 -> lang (Re.Cat r1 r2) (s1 ++ s2)
| lang_group r s : lang r s -> lang (Re.Group r) s.

Definition occurs (r : Re.regex) (t : string) : Prop :=
  exists pre a post, t = pre ++ a ++ post /\ lang r a.

(** An inline anchor is a fragment [<a href=...>label</a>]. *)
Definition has_anchor (t : string) : Prop := occurs ResumeGen.hyperlink_pattern t.

(** The text of a run, and of a sequence of runs. *)
Definition run_text (r : run) : string :=
  match r with Plain t => t | Hyperlink t _ => t end.

Definition runs_text (rs : list run) : string :=
  fold_right (fun r acc => run_text r ++ acc) "" rs.

End Spec.

(** ** The resume payload with its optional date

    Section 3 of the specification gives an entry a date that is optional
    and may be empty.  [Payload] is [Spec]'s data model with the [date] key
    of an entry possibly absent, and the rendering of section 4 on it: an
    absent date is not "non-empty", so the heading gets no date. *)

Module Payload.

Record Entry : Type := {
  entry_id : Z;
  position : string;
  date : option string;
  items : list string
}.

Record Sect : Type := {
  sect_id : Z;
  title : string;
  content : list Entry
}.

Record Resume : Type := {
  name : string;
  header_title : string;
  contents : list Sect
}.

(** The dictionary [json.load] builds from such a payload. *)
Definition entry_dict (e : Entry) : ResumeGen.Entry :=
  ResumeGen.Build_Entry (Some (entry_id e)) (Some (position e)) (date e)
    (Some (items e)).

Definition sect_dict (s : Sect) : ResumeGen.Sect :=
  ResumeGen.Build_Sect (Some (sect_id s)) (Some (title s))
    (Some (map entry_dict (content s))).

Definition resume_dict (r : Resume) : ResumeGen.Resume :=
  ResumeGen.Build_Resume
    (Some (ResumeGen.Build_Header (Some (name r)) (Some (header_title r))))
    (Some (map sect_dict (contents r))).

(** Step 4a: the entry's heading, when its position is not empty. *)
Definition entry_heading (e : Entry) : list block :=
  if Py.truthy (position e) then
    let heading := ResumeGen.stripToPlainText (position e) in
    [Heading (match date e with
              | Some d => if Py.truthy d then heading ++ " - (" ++ d ++ ")" else heading
              | None => heading
              end) 2]
  else [].

Definition render_entry (e : Entry) : list block :=
  entry_heading e ++ map Spec.bullet (items e).

Definition render_section (s : Sect) : list block :=
  Heading (title s) 1
  :: flat_map render_entry (Spec.by_descending_id entry_id (content s)).

Definition render (r : Resume) : list block :=
  Heading (name r) 0 :: Heading (header_title r) 3
  :: flat_map render_section (Spec.by_descending_id sect_id (contents r)).

(** An entry whose position is not empty has a date (which may be empty). *)
Definition dated_entry (e : Entry) : bool :=
  negb (Py.truthy (position e)) || bool_decide (is_Some (date e)).

Definition dated (r : Resume) : bool :=
  forallb (fun s => forallb dated_entry (content s)) (contents r).

(** A payload in which every entry has its date. *)
Definition of_entry (e : Spec.Entry) : Entry :=
  Build_Entry (Spec.entry_id e) (Spec.position e) (Some (Spec.date e)) (Spec.items e).

Definition of_sect (s : Spec.Sect) : Sect :=
  Build_Sect (Spec.sect_id s) (Spec.title s) (map of_entry (Spec.content s)).

Definition of_resume (r : Spec.Resume) : Resume :=
  Build_Resume (Spec.name r) (Spec.header_title r) (map of_sect (Spec.contents r)).

End Payload.

(** ** Properties of effectful code used in the statements *)

(** A paragraph with more runs at its end. *)
Definition extend (p : paragraph) (rs : list run) : paragraph :=
  Paragraph (p_style p) (p_runs p ++ rs) (p_role p) (space_before p) (space_after p).

(** The computation never changes the files, whether it returns or raises. *)
Definition keeps_files {A} (m : M A) : Prop :=
  forall st, files (m st).2 = files st.

(** The computation raises from every state. *)
Definition fails {A} (m : M A) : Prop :=
  forall st, exists e, (m st).1 = inl e.

(** Every exception the computation raises is a [KeyError]. *)
Definition only_key_errors {A} (m : M A) : Prop :=
  forall st e, (m st).1 = inl e -> exists k, e = KeyError k.

(** When the computation raises, the files are as they were. *)
Definition no_file_on_error {A} (m : M A) : Prop :=
  forall st e, (m st).1 = inl e -> files (m st).2 = files st.

(** A resume entry that misses a key its rendering looks up: [position] and
    [items] always, [date] when the position is not empty. *)
Definition entry_lacks_key (item : ResumeGen.Entry) : Prop :=
  ResumeGen.position item = None \/
  ResumeGen.items item = None \/
  (ResumeGen.date item = None /\
   exists p, ResumeGen.position item = Some p /\ p <> "").

(** A header field of the resume dictionary, [None] when the header or the
    field is absent. *)
Definition header_field (r : ResumeGen.Resume)
    (field : ResumeGen.Header -> option string) : option string :=
  match ResumeGen.header r with
  | Some h => field h
  | None => None
  end.

(** When the computation returns, the file [out] holds the document as it
    is at the end and no other file has changed. *)
Definition saves_on_success (out : string) (m : M unit) : Prop :=
  forall st, (m st).1 = inr tt ->
    files (m st).2 = <[out := doc (m st).2]> (files st).

(** The text and the role of a cover-letter paragraph. *)
Definition block_text (b : block) : string :=
  match b with
  | Heading t _ => t
  | Para p => Spec.runs_text (p_runs p)
  end.

Definition block_role (b : block) : option role :=
  match b with
  | Heading _ _ => None
  | Para p => Some (p_role p)
  end.

(** ** Further notions used in the statements *)

Definition is_plain (r : run) : bool :=
  match r with Plain _ => true | Hyperlink _ _ => false end.

(** No two plain runs next to each other. *)
Fixpoint no_adjacent_plain (rs : list run) : bool :=
  match rs with
  | r1 :: (r2 :: _) as rest => negb (is_plain r1 && is_plain r2) && no_adjacent_plain rest
  | _ => true
  end.

(** The lines of the letter that become paragraphs: every line of the
    substituted template, stripped, the blank ones dropped. *)
Definition letter_lines (data : CoverLetter.dict) (template : string) : list string :=
  List.filter Py.truthy
    (map Py.strip (Py.split CoverLetter.nl (CoverLetter.substitute data template))).

(** A finished paragraph of the letter for [line]: style Normal, the line
    as its single run, no spacing of its own; [r] is the branch of the
    classifier that made it. *)
Definition letter_paragraph (line : string) (b : block) : Prop :=
  exists r, r <> Bullet /\ b = Para (CoverLetter.normal line r None None).

(** The line before the first line of [lines] equal to [name] (the last
    line, when that first one is line 0) strips to "Sincerely,". *)
Definition follows_closing (name : string) (lines : list string) : Prop :=
  exists i prev,
    Py.index name lines = Some i /\
    Py.item_before lines i = Some prev /\
    Py.strip prev = "Sincerely,".



(** The computation leaves a component of the state as it was. *)
Definition keeps {A X} (proj : state -> X) (m : M A) : Prop :=
  forall st, proj (m st).2 = proj st.

(** The computation logs [entry] when it returns and nothing when it
    raises. *)
Definition logs_on_success {A} (entry : level * string) (m : M A) : Prop :=
  forall st,
    log (m st).2 = (log st ++ match (m st).1 with inr _ => [entry] | inl _ => [] end)%list.

(** An anchor written out as the specification writes it, the URL between
    two quotes [q]. *)
Definition anchor (q : ascii) (url label : string) : string :=
  "<a href=" ++ String q (url ++ String q (">" ++ (label ++ "</a>"))).

(** Every character of [s] satisfies [p]. *)
Fixpoint all_chars (p : ascii -> bool) (s : string) : bool :=
  match s with
  | EmptyString => true
  | String c s' => p c && all_chars p s'
  end.

(** [s.endswith(suffix)]. *)
Fixpoint ends_with (suffix s : string) : bool :=
  String.eqb suffix s ||
  match s with
  | EmptyString => false
  | String _ s' => ends_with suffix s'
  end.

(** Characters of a URL that an anchor can carry: no quote, no newline, no
    [>]. *)
Definition url_char (c : ascii) : bool :=
  negb (Re.quote c) && Re.dot c && Re.not_gt c.

(** Characters of a label: no newline, no [<]. *)
Definition label_char (c : ascii) : bool :=
  Re.dot c && negb (Ascii.eqb "<" c).

(** Characters of the text around an anchor: no [<]. *)
Definition plain_char (c : ascii) : bool := negb (Ascii.eqb "<" c).

(** The plain run of a text: none when it is empty. *)
Definition plain_run (s : string) : list run :=
  if Py.truthy s then [Plain s] else [].

(** ** [ResumeGen._apply_document_styles]

    The part of a python-docx document the method changes: the font name
    and size of each style, and the four margins of each section.  Lengths
    are kept abstract: [Pt] and [Cm] turn a number of the configuration into
    a length.  [doc.styles[name]] raises [KeyError] for a style the
    document does not have.  The state an exception leaves behind is kept. *)

Module Styles.

(** How the document keeps a length assigned to it.  python-docx writes a
    font size in half points and a page margin in twentieths of a point:
    what is in the document afterwards, and what reading the property gives,
    is the length in that unit, not the length assigned. *)
Class Stored (length : Type) : Type := {
  half_points : length -> length;
  twips : length -> length
}.

Section Lengths.
Context {num length : Type} (Pt Cm : num -> length) `{!Stored length}.

Record Font : Type := { font_name : option string; font_size : option length }.

Record Margins : Type := {
  top_margin : option length;
  bottom_margin : option length;
  left_margin : option length;
  right_margin : option length
}.

Record document : Type := { styles : gmap string Font; sections : list Margins }.

(** [config["font"]] and [config["margins"]], keys possibly absent. *)
Record FontConfig : Type := { name : option string; size : option num }.

Record MarginConfig : Type := {
  top : option num; bottom : option num; left : option num; right : option num
}.

Record Config : Type := { font : option FontConfig; margins : option MarginConfig }.

Definition styled_names : list string := ["Normal"; "Heading 1"; "Heading 2"; "Heading 3"].

Definition set_name (n : string) (f : Font) : Font :=
  {| font_name := Some n; font_size := font_size f |}.

Definition set_size (s : length) (f : Font) : Font :=
  {| font_name := font_name f; font_size := Some s |}.

(** [config[outer][inner]]. *)
Definition lookup2 {A B} (outer : option A) (outer_key : string)
    (inner : A -> option B) (inner_key : string) : exn + B :=
  match outer with
  | None => inl (KeyError outer_key)
  | Some o =>
      match inner o with
      | None => inl (KeyError inner_key)
      | Some v => inr v
      end
  end.

(** One round of the loop over the style names. *)
Definition style_step (config : Config) (d : document) (style_name : string)
    : option exn * document :=
  match styles d !! style_name with
  | None => (Some (KeyError ("no style with name '" ++ style_name ++ "'")), d)
  | Some _ =>
      match lookup2 (font config) "font" name "name" with
      | inl e => (Some e, d)
      | inr n =>
          let d1 := {| styles := alter (set_name n) style_name (styles d);
                       sections := sections d |} in
          match lookup2 (font config) "font" size "size" with
          | inl e => (Some e, d1)
          | inr s =>
              (None, {| styles := alter (set_size (half_points (Pt s))) style_name
                                    (styles d1);
                        sections := sections d1 |})
          end
      end
  end.

Fixpoint for_styles (config : Config) (names : list string) (d : document)
    : option exn * document :=
  match names with
  | [] => (None, d)
  | n :: names' =>
      match style_step config d n with
      | (Some e, d') => (Some e, d')
      | (None, d') => for_styles config names' d'
      end
  end.

(** One round of the loop over the sections: four assignments in turn. *)
Definition section_step (config : Config) (s : Margins) : option exn * Margins :=
  match lookup2 (margins config) "margins" top "top" with
  | inl e => (Some e, s)
  | inr t =>
      let s1 := {| top_margin := Some (twips (Cm t)); bottom_margin := bottom_margin s;
                   left_margin := left_margin s; right_margin := right_margin s |} in
      match lookup2 (margins config) "margins" bottom "bottom" with
      | inl e => (Some e, s1)
      | inr b =>
          let s2 := {| top_margin := top_margin s1; bottom_margin := Some (twips (Cm b));
                       left_margin := left_margin s1; right_margin := right_margin s1 |} in
          match lookup2 (margins config) "margins" left "left" with
          | inl e => (Some e, s2)
          | inr l =>
              let s3 := {| top_margin := top_margin s2; bottom_margin := bottom_margin s2;
                           left_margin := Some (twips (Cm l)); right_margin := right_margin s2 |} in
              match lookup2 (margins config) "margins" right "right" with
              | inl e => (Some e, s3)
              | inr r =>
                  (None, {| top_margin := top_margin s3; bottom_margin := bottom_margin s3;
                            left_margin := left_margin s3; right_margin := Some (twips (Cm r)) |})
              end
          end
      end
  end.

Fixpoint for_sections (config : Config) (secs : list Margins)
    : option exn * list Margins :=
  match secs with
  | [] => (None, [])
  | s :: rest =>
      match section_step config s with
      | (Some e, s') => (Some e, s' :: rest)
      | (None, s') =>
          let '(r, rest') := for_sections config rest in (r, s' :: rest')
      end
  end.

Definition _apply_document_styles (config : Config) (d : document)
    : option exn * document :=
  match for_styles config styled_names d with
  | (Some e, d') => (Some e, d')
  | (None, d') =>
      let '(r, secs) := for_sections config (sections d') in
      (r, {| styles := styles d'; sections := secs |})
  end.

(** A configuration with every key the method reads. *)
Definition complete (config : Config) (n : string) (s t b l r : num) : Prop :=
  font config = Some {| name := Some n; size := Some s |} /\
  margins config = Some {| top := Some t; bottom := Some b;
                           left := Some l; right := Some r |}.

End Lengths.

(** Lengths in English Metric Units, as python-docx counts them: 12700 to
    the point, 360000 to the centimetre, 635 to the twip and 6350 to the
    half point.  A margin is rounded to the nearest twip and a font size
    (never negative) cut down to a half point. *)
#[global] Instance emu_stored : Stored Z := {|
  half_points := fun emu => (emu / 6350 * 6350)%Z;
  twips := fun emu => ((2 * emu + 635) / 1270 * 635)%Z
|}.

End Styles.

(** ** The two programs from the command line

    What lies outside the programs is given to [main] from outside:
    - [read A] is what reading a source does when called ([requests.get]
      with [raise_for_status] and [response.json]; [open] with [json.load]
      or [f.read]): it returns the content, or raises an exception, given by
      its text [str(e)] and by whether its class is one the [except] clause
      of the loader names;
    - [format] is [args.output.format(datetime=...)]: it returns the output
      path, or raises on a template it cannot fill (a field other than
      [datetime], a single brace);
    - a JSON file that is read holds an object of the shape the program
      expects.
    An exception that leaves [main] ends the process with a traceback and
    nothing logged: [Uncaught]. *)

Inductive read (A : Type) : Type :=
| Returns (content : A)
| Raises (caught : bool) (msg : string).
Arguments Returns {A} content.
Arguments Raises {A} caught msg.

Inductive formatted : Type :=
| Path (output_file : string)
| FormatError (msg : string).

Inductive outcome : Type :=
| Exit (status : nat)
| Uncaught (msg : string).

(** A loader returns the content or lets the exception through. *)
Definition loaded (A : Type) : Type := (string + A) * state.

(** [try: return <read>  except <classes> as e: logger.error(...); raise] *)
Definition logged_read {A} (failed : string) (r : read A) (st : state) : loaded A :=
  match r with
  | Returns content => (inr content, st)
  | Raises true msg => (inl msg, (logger ERROR (failed ++ ": " ++ msg) st).2)
  | Raises false msg => (inl msg, st)
  end.

(** The handler of both [main]s: [logger.critical(...)], [exit(1)]. *)
Definition application_failed (msg : string) (st : state) : outcome * state :=
  (Exit 1, (logger CRITICAL ("Application failed: " ++ msg) st).2).

Module ResumeMain.

Definition fetch_json (url : string) (r : read ResumeGen.Resume) : state -> loaded _ :=
  logged_read ("Failed to fetch JSON from " ++ url) r.

Definition load_json (file_path : string) (r : read ResumeGen.Resume)
    : state -> loaded _ :=
  logged_read ("Failed to load JSON from " ++ file_path) r.

Record Args : Type := { url : option string; file : option string; output : string }.

(** The rest of the [try] of [main] once the loader has been called. *)
Definition generate (output_file : string) (l : loaded ResumeGen.Resume)
    : outcome * state :=
  match l with
  | (inl msg, st1) => application_failed msg st1
  | (inr resume_data, st1) =>
      match (ResumeGen.init ;; ResumeGen.generate_resume resume_data output_file) st1 with
      | (inl e, st2) => application_failed (exn_str e) st2
      | (inr _, st2) => (Exit 0, st2)
      end
  end.

(** [main]: [parser.error] exits with status 2; the output path is
    formatted before the [try]. *)
Definition main (args : Args) (format : string -> formatted)
    (r : read ResumeGen.Resume) (st : state) : outcome * state :=
  match file args, url args with
  | None, None => (Exit 2, st)
  | Some _, Some _ => (Exit 2, st)
  | Some file_path, None =>
      match format (output args) with
      | FormatError msg => (Uncaught msg, st)
      | Path output_file => generate output_file (load_json file_path r st)
      end
  | None, Some u =>
      match format (output args) with
      | FormatError msg => (Uncaught msg, st)
      | Path output_file => generate output_file (fetch_json u r st)
      end
  end.


End ResumeMain.

Module CoverLetterMain.

Definition load_template (template_path : string) (r : read string) : state -> loaded _ :=
  logged_read ("Failed to read template from " ++ template_path) r.

Definition load_json (json_path : string) (r : read CoverLetter.Json)
    : state -> loaded _ :=
  logged_read ("Failed to load JSON from " ++ json_path) r.

(** The command line: [--json] and [--company] are required, the others
    have a default. *)
Record Args : Type := {
  json : option string;
  template : string;
  position : string;
  company : option string;
  output : string
}.

(** [main]: the parser exits with status 2 when a required argument is not
    given; the output path is formatted before the [try]; the rest is
    [CoverLetter.main], the [try] from the validation of the header on.
    [today] is the formatted current date. *)
Definition main (args : Args) (format : string -> formatted) (today : string)
    (template_file : read string) (json_file : read CoverLetter.Json) (st : state)
    : outcome * state :=
  match json args, company args with
  | Some json_path, Some company_name =>
      match format (output args) with
      | FormatError msg => (Uncaught msg, st)
      | Path output_file =>
          match load_template (template args) template_file st with
          | (inl msg, st1) => application_failed msg st1
          | (inr template_text, st1) =>
              match load_json json_path json_file st1 with
              | (inl msg, st2) => application_failed msg st2
              | (inr json_data, st2) =>
                  match CoverLetter.main template_text json_data today
                          (position args) company_name output_file st2 with
                  | (inr status, st3) => (Exit status, st3)
                  | (inl e, st3) => (Uncaught (exn_str e), st3)
                  end
              end
          end
      end
  | _, _ => (Exit 2, st)
  end.

End CoverLetterMain.



(** * Theorems *)

(** ** Strings *)

#[local] Arguments String.append !_ _ : simpl nomatch.

Lemma append_empty_r (s : string) : s ++ "" = s.
Proof. induction s as [|c s IH]; [reflexivity | cbn; now f_equal]. Qed.

Lemma append_assoc (s1 s2 s3 : string) : (s1 ++ s2) ++ s3 = s1 ++ (s2 ++ s3).
Proof. induction s1 as [|c s1 IH]; [reflexivity | cbn; now f_equal]. Qed.

Lemma substring_all (s : string) : substring 0 (String.length s) s = s.
Proof. induction s as [|c s IH]; [reflexivity | cbn; now f_equal]. Qed.

Lemma slice_from_start (s : string) : Py.slice_from s 0 = s.
Proof. unfold Py.slice_from, Py.slice. rewrite Nat.sub_0_r. apply substring_all. Qed.

(** ** The matcher finds a match exactly where the pattern's language has one *)

Section MatcherFacts.
Import Re Spec.
Context {R : Type}.

Lemma many_greedy_fallback p s i (k : string -> nat -> option R) :
  k s i <> None -> many_greedy p s i k <> None.
Proof.
  intros Hk. destruct s as [|c s]; simpl; [exact Hk|].
  destruct (p c); [|exact Hk].
  destruct (many_greedy p s (S i) k); [discriminate | exact Hk].
Qed.

Lemma many_lazy_fallback p s i (k : string -> nat -> option R) :
  k s i <> None -> many_lazy p s i k <> None.
Proof.
  intros Hk. destruct s as [|c s]; simpl; destruct (k _ i); congruence.
Qed.

(** Completeness: a word of the language in front of a text on which the
    continuation succeeds makes the matcher succeed. *)
Lemma exec_complete r a :
  lang r a ->
  forall rest i g (k : string -> nat -> list string -> option R),
    (forall i' g', k rest i' g' <> None) ->
    exec r (a ++ rest) i g k <> None.
Proof.
  induction 1 as [c | p c Hp | b p | b p c s Hp _ IH | r1 r2 s1 s2 _ IH1 _ IH2
                 | r s _ IH]; intros rest i g k Hk.
  - simpl. rewrite Ascii.eqb_refl. apply Hk.
  - simpl. rewrite Hp. apply Hk.
  - destruct b; simpl.
    + apply many_greedy_fallback, Hk.
    + apply many_lazy_fallback, Hk.
  - specialize (IH rest (S i) g k Hk).
    destruct b; simpl in *; rewrite Hp.
    + destruct (many_greedy p (s ++ rest) (S i) _); congruence.
    + destruct (k _ i g); [discriminate | exact IH].
  - rewrite append_assoc. simpl. apply IH1. intros i' g'. apply IH2, Hk.
  - simpl. apply IH. intros i' g'. apply Hk.
Qed.

Lemma many_greedy_sound p s i (k : string -> nat -> option R) x :
  many_greedy p s i k = Some x ->
  exists a rest i', s = a ++ rest /\ lang (Many true p) a /\ k rest i' = Some x.
Proof.
  revert i. induction s as [|c s IH]; intros i; simpl.
  - intros Hk. exists "", "", i. repeat split; [constructor | exact Hk].
  - destruct (p c) eqn:Hp.
    + destruct (many_greedy p s (S i) k) as [y|] eqn:Hrec.
      * intros [= ->]. destruct (IH _ Hrec) as (a & rest & i' & -> & Ha & Hk).
        exists (String c a), rest, i'. repeat split; [now constructor | exact Hk].
      * intros Hk. exists "", (String c s), i. repeat split; [constructor | exact Hk].
    + intros Hk. exists "", (String c s), i. repeat split; [constructor | exact Hk].
Qed.

Lemma many_lazy_sound p s i (k : string -> nat -> option R) x :
  many_lazy p s i k = Some x ->
  exists a rest i', s = a ++ rest /\ lang (Many false p) a /\ k rest i' = Some x.
Proof.
  revert i. induction s as [|c s IH]; intros i; simpl.
  - destruct (k "" i) eqn:Hk; [|discriminate].
    intros [= ->]. exists "", "", i. repeat split; [constructor | exact Hk].
  - destruct (k (String c s) i) eqn:Hk.
    + intros [= ->]. exists "", (String c s), i.
      repeat split; [constructor | exact Hk].
    + destruct (p c) eqn:Hp; [|discriminate].
      intros Hrec. destruct (IH _ Hrec) as (a & rest & i' & -> & Ha & Hk').
      exists (String c a), rest, i'. repeat split; [now constructor | exact Hk'].
Qed.

(** Soundness: a success of the matcher consumed a word of the language
    and then the continuation succeeded. *)
Lemma exec_sound r :
  forall s i g (k : string -> nat -> list string -> option R) x,
    exec r s i g k = Some x ->
    exists a rest i' g', s = a ++ rest /\ lang r a /\ k rest i' g' = Some x.
Proof.
  induction r as [c | p | b p | r1 IH1 r2 IH2 | r IH]; intros s i g k x; simpl.
  - destruct s as [|c' s]; [discriminate|].
    destruct (Ascii.eqb c c') eqn:Hc; [|discriminate].
    apply Ascii.eqb_eq in Hc as <-. intros Hk.
    exists (String c ""), s, (S i), g. repeat split; [constructor | exact Hk].
  - destruct s as [|c' s]; [discriminate|].
    destruct (p c') eqn:Hp; [|discriminate]. intros Hk.
    exists (String c' ""), s, (S i), g. repeat split; [now constructor | exact Hk].
  - destruct b; intros Hx.
    + destruct (many_greedy_sound _ _ _ _ _ Hx) as (a & rest & i' & ? & ? & ?).
      now exists a, rest, i', g.
    + destruct (many_lazy_sound _ _ _ _ _ Hx) as (a & rest & i' & ? & ? & ?).
      now exists a, rest, i', g.
  - intros Hx. destruct (IH1 _ _ _ _ _ Hx) as (a1 & rest1 & i1 & g1 & -> & Ha1 & Hx1).
    destruct (IH2 _ _ _ _ _ Hx1) as (a2 & rest2 & i2 & g2 & -> & Ha2 & Hx2).
    exists (a1 ++ a2), rest2, i2, g2. rewrite append_assoc.
    repeat split; [now constructor | exact Hx2].
  - intros Hx. destruct (IH _ _ _ _ _ Hx) as (a & rest & i' & g' & -> & Ha & Hk).
    eexists a, rest, i', _. repeat split; [now constructor | exact Hk].
Qed.
End MatcherFacts.

Lemma match_at_none r s i :
  Re.match_at r s i = None <-> ~ exists a rest, s = a ++ rest /\ Spec.lang r a.
Proof.
  unfold Re.match_at. split.
  - intros Hnone (a & rest & -> & Ha).
    revert Hnone. apply exec_complete; [exact Ha | discriminate].
  - intros Hno. destruct (Re.exec r s i [] _) as [m|] eqn:Hm; [|reflexivity].
    exfalso. apply Hno. apply exec_sound in Hm as (a & rest & _ & _ & -> & Ha & _).
    now exists a, rest.
Qed.

Lemma occurs_cons r c s :
  Spec.occurs r (String c s) <->
  (exists a rest, String c s = a ++ rest /\ Spec.lang r a) \/ Spec.occurs r s.
Proof.
  unfold Spec.occurs. split.
  - intros (pre & a & post & Heq & Ha). destruct pre as [|c' pre]; simpl in Heq.
    + left. now exists a, post.
    + right. injection Heq as _ ->. now exists pre, a, post.
  - intros [(a & rest & Heq & Ha) | (pre & a & post & -> & Ha)].
    + now exists "", a, rest.
    + now exists (String c pre), a, post.
Qed.

Lemma scan_nil r s i : Re.scan r s i 0 = [] <-> ~ Spec.occurs r s.
Proof.
  revert i. induction s as [|c s IH]; intros i; simpl.
  - destruct (Re.match_at r "" i) as [m|] eqn:Hm.
    + split; [discriminate|]. intros Hno. exfalso.
      assert (Hsome : Re.match_at r "" i <> None) by congruence.
      rewrite match_at_none in Hsome. apply Hsome. intros (a & rest & Heq & Ha).
      apply Hno. now exists "", a, rest.
    + split; [|reflexivity]. intros _ (pre & a & post & Heq & Ha).
      apply match_at_none in Hm. apply Hm.
      destruct pre; [|discriminate]. now exists a, post.
  - rewrite occurs_cons. destruct (Re.match_at r (String c s) i) as [m|] eqn:Hm.
    + split; [discriminate|]. intros Hno. exfalso.
      assert (Hsome : Re.match_at r (String c s) i <> None) by congruence.
      rewrite match_at_none in Hsome. tauto.
    + apply match_at_none in Hm. rewrite IH. tauto.
Qed.

(** [re.finditer] yields nothing exactly on the texts in which the pattern
    does not occur. *)
Lemma finditer_nil r t : Re.finditer r t = [] <-> ~ Spec.occurs r t.
Proof. apply scan_nil. Qed.

(** ** The inline markup processor *)

Section Markup.
Import ResumeGen.

Lemma process_without_match (p : paragraph) (t : string) :
  Re.finditer hyperlink_pattern t = [] ->
  process_text_with_hyperlinks p t =
    if Py.truthy t then add_run p (Plain t) else p.
Proof.
  intros Hnone. unfold process_text_with_hyperlinks. rewrite Hnone. simpl.
  rewrite slice_from_start. now destruct t.
Qed.

Lemma remove_without_match (t : string) :
  Re.finditer tag_pattern t = [] -> remove_hyperlink t = t.
Proof.
  intros Hnone. unfold remove_hyperlink, Re.sub. rewrite Hnone. simpl.
  apply slice_from_start.
Qed.

(** C3, as the specification states it, fails on the empty text: it holds
    no anchor and [toRuns] gives it no run at all. *)
Lemma empty_text_refutes_one_run :
  ~ (forall t, ~ Spec.has_anchor t ->
       toRuns t = [Plain t] /\ stripToPlainText t = t).
Proof.
  intros Hclaim. destruct (Hclaim "") as [Hruns _].
  - apply finditer_nil. reflexivity.
  - discriminate Hruns.
Qed.

(** It also fails on a tag without [href], which is no inline anchor and
    yet is rewritten by [stripToPlainText]. *)
Lemma tag_without_href_refutes_strip :
  let t := "<a class='x'>L</a>" in
  ~ Spec.has_anchor t /\ stripToPlainText t <> t.
Proof.
  split.
  - apply finditer_nil. reflexivity.
  - vm_compute. discriminate.
Qed.

(** C3 (amended): a non-empty text in which the hyperlink pattern does not
    occur becomes exactly one plain run equal to the text, and the empty
    text becomes no run; a text in which the tag pattern of
    [remove_hyperlink] does not occur is left unchanged by
    [stripToPlainText]. *)
Theorem text_without_anchor (t : string) :
  (~ Spec.occurs hyperlink_pattern t ->
     toRuns t = if Py.truthy t then [Plain t] else []) /\
  (~ Spec.occurs tag_pattern t -> stripToPlainText t = t).
Proof.
  split; intros Hno; apply finditer_nil in Hno.
  - unfold toRuns. rewrite process_without_match by exact Hno.
    now destruct t.
  - now apply remove_without_match.
Qed.

Lemma text_without_anchor_witness :
  toRuns "Senior Software Engineer, Example"
    = [Plain "Senior Software Engineer, Example"] /\
  stripToPlainText "Senior Software Engineer, Example"
    = "Senior Software Engineer, Example".
Proof.
  destruct (text_without_anchor "Senior Software Engineer, Example") as [H1 H2].
  split; [apply H1 | apply H2]; apply finditer_nil; reflexivity.
Defined.

(** C7: the three runs of ["A <a href='u'>L</a> B"], and its plain text. *)
Theorem single_quoted_anchor_runs :
  toRuns "A <a href='u'>L</a> B" = [Plain "A "; Hyperlink "L" "u"; Plain " B"] /\
  stripToPlainText "A <a href='u'>L</a> B" = "A L B".
Proof. split; reflexivity. Qed.

(** C8: on a tag with attributes but no quoted [href], [stripToPlainText]
    keeps the label only while [toRuns] keeps the whole tag as plain text,
    so the text of the runs is not always the stripped text. *)
Theorem strip_and_runs_disagree :
  exists t,
    t = "<a class='x'>L</a>" /\
    stripToPlainText t = "L" /\
    toRuns t = [Plain t] /\
    Spec.runs_text (toRuns t) <> stripToPlainText t.
Proof.
  exists "<a class='x'>L</a>".
  split; [reflexivity|]. split; [reflexivity|]. split; [reflexivity|].
  vm_compute. discriminate.
Qed.
End Markup.

(** ** The stable descending sort *)

Section SortFacts.
Context {A : Type}.
Implicit Types (x : Z * A) (l : list (Z * A)).

Lemma insert_desc_perm x l : Permutation (x :: l) (insert_desc x l).
Proof.
  induction l as [|y l IH]; simpl; [reflexivity|].
  destruct (x.1 <? y.1)%Z; [|reflexivity].
  rewrite perm_swap. now apply perm_skip.
Qed.

Lemma sort_desc_perm l : Permutation l (sort_desc l).
Proof.
  induction l as [|x l IH]; simpl; [reflexivity|].
  rewrite <- insert_desc_perm. now apply perm_skip.
Qed.

Lemma insert_desc_sorted x l :
  StronglySorted (fun a b => (b.1 <= a.1)%Z) l ->
  StronglySorted (fun a b => (b.1 <= a.1)%Z) (insert_desc x l).
Proof.
  induction 1 as [|y l Hs IH Hy]; simpl.
  - repeat constructor.
  - destruct (Z.ltb_spec x.1 y.1) as [Hlt | Hge].
    + constructor; [exact IH|].
      rewrite <- insert_desc_perm. constructor; [lia | exact Hy].
    + constructor; [now constructor|].
      constructor; [exact Hge|].
      eapply Forall_impl; [exact Hy|]. simpl. intros z Hz. lia.
Qed.

Lemma sort_desc_sorted l : StronglySorted (fun a b => (b.1 <= a.1)%Z) (sort_desc l).
Proof.
  induction l as [|x l IH]; simpl; [constructor | now apply insert_desc_sorted].
Qed.

Lemma insert_desc_filter k x l :
  StronglySorted (fun a b => (b.1 <= a.1)%Z) l ->
  filter (fun a => a.1 = k) (insert_desc x l) = filter (fun a => a.1 = k) (x :: l).
Proof.
  intros Hs. induction Hs as [|y l Hs IH Hy]; simpl; [reflexivity|].
  destruct (Z.ltb_spec x.1 y.1) as [Hlt | Hge]; [|reflexivity].
  rewrite !filter_cons in *. rewrite IH.
  destruct (decide (x.1 = k)), (decide (y.1 = k)); try reflexivity. lia.
Qed.

Lemma sort_desc_stable l k :
  filter (fun a => a.1 = k) (sort_desc l) = filter (fun a => a.1 = k) l.
Proof.
  induction l as [|x l IH]; simpl; [reflexivity|].
  rewrite insert_desc_filter by apply sort_desc_sorted.
  rewrite !filter_cons, IH. reflexivity.
Qed.

Lemma insert_desc_map {B} (f : A -> B) x l :
  insert_desc (x.1, f x.2) (map (fun y => (y.1, f y.2)) l)
  = map (fun y => (y.1, f y.2)) (insert_desc x l).
Proof.
  induction l as [|y l IH]; simpl; [reflexivity|].
  destruct (x.1 <? y.1)%Z; simpl; [now rewrite IH | reflexivity].
Qed.

Lemma sort_desc_map {B} (f : A -> B) l :
  sort_desc (map (fun y => (y.1, f y.2)) l) = map (fun y => (y.1, f y.2)) (sort_desc l).
Proof.
  induction l as [|x l IH]; simpl; [reflexivity|].
  rewrite IH. apply insert_desc_map.
Qed.
End SortFacts.

(** The order of the specification is the stable descending sort. *)
Lemma by_descending_id_stable {A} (key : A -> Z) (l : list A) :
  Spec.stable_descending key l (Spec.by_descending_id key l).
Proof.
  unfold Spec.stable_descending, Spec.by_descending_id.
  set (kl := map (fun a => (key a, a)) l).
  assert (Hkey : forall p, p ∈ sort_desc kl -> p.1 = key p.2).
  { intros p Hp. rewrite <- (sort_desc_perm kl) in Hp.
    apply list_elem_of_fmap in Hp as (a & -> & _). reflexivity. }
  assert (Hl : l = map snd kl).
  { unfold kl. rewrite map_map. simpl. now rewrite map_id. }
  split; [|split].
  - rewrite Hl at 1. apply Permutation_map, sort_desc_perm.
  - pose proof (sort_desc_sorted kl) as Hs. revert Hkey.
    induction Hs as [|p ps Hs IH Hp]; intros Hkey; simpl; constructor.
    + apply IH. intros q Hq. apply Hkey. now right.
    + rewrite Forall_forall in Hp. apply Forall_forall. intros b Hb.
      apply list_elem_of_In, in_map_iff in Hb as (q & <- & Hq).
      apply list_elem_of_In in Hq.
      rewrite <- (Hkey p) by now left.
      rewrite <- (Hkey q) by now right.
      now apply Hp.
  - intros k. rewrite Hl at 1.
    transitivity (map snd (filter (fun p : Z * A => p.1 = k) (sort_desc kl))).
    + revert Hkey. generalize (sort_desc kl). intros ps Hkey.
      induction ps as [|p ps IH]; simpl; [reflexivity|].
      rewrite !filter_cons. rewrite <- (Hkey p) by now left.
      rewrite IH by (intros q Hq; apply Hkey; now right).
      now destruct (decide (p.1 = k)).
    + rewrite sort_desc_stable. unfold kl. clear.
      induction l as [|a l IH]; simpl; [reflexivity|].
      rewrite !filter_cons. simpl. rewrite <- IH.
      now destruct (decide (key a = k)).
Qed.

(** ** Running the effects *)

Lemma set_doc_same st : set_doc (doc st) st = st.
Proof. now destruct st. Qed.

Lemma extend_nil p : extend p [] = p.
Proof. destruct p. unfold extend. simpl. now rewrite app_nil_r. Qed.

Lemma add_run_extend p rs r : add_run (extend p rs) r = extend p (rs ++ [r]).
Proof. unfold add_run, extend. simpl. now rewrite app_assoc. Qed.

Lemma bind_returns {A B} (m : M A) (f : A -> M B) st a st' :
  m st = (inr a, st') -> (m ≫= f) st = f a st'.
Proof. intros Hm. unfold mbind, M_bind, bind. now rewrite Hm. Qed.

Lemma bind_raises {A B} (m : M A) (f : A -> M B) st e st' :
  m st = (inl e, st') -> (m ≫= f) st = (inl e, st').
Proof. intros Hm. unfold mbind, M_bind, bind. now rewrite Hm. Qed.

(** A loop whose body only appends blocks appends them all, in order. *)
Lemma for_each_emits {A B} (f : A -> B) (body : B -> M unit) (g : A -> list block) l :
  (forall x st, body (f x) st = (inr tt, set_doc (doc st ++ g x) st)) ->
  forall st, for_each (map f l) body st = (inr tt, set_doc (doc st ++ flat_map g l) st).
Proof.
  intros Hbody. induction l as [|x l IH]; intros st; simpl.
  - now rewrite app_nil_r, set_doc_same.
  - erewrite bind_returns by apply Hbody. rewrite IH. simpl.
    now rewrite <- app_assoc.
Qed.

(** An appended paragraph mutated through its handle. *)
Lemma add_then_update p (f : paragraph -> paragraph) st :
  (h ← add_paragraph p; update_paragraph h f) st
  = (inr tt, set_doc (doc st ++ [Para (f p)]) st).
Proof.
  unfold mbind, M_bind, bind, add_paragraph, update_paragraph. simpl. f_equal.
  unfold set_doc. simpl. f_equal.
  rewrite <- (Nat.add_0_r (List.length (doc st))). now rewrite alter_app_r.
Qed.

Section ResumeFacts.
Import ResumeGen.

Lemma process_match_extend t last p rs m :
  process_match t (last, extend p rs) m =
  (Re.m_end m,
   extend p (rs ++ (if last <? Re.m_start m
                    then [Plain (Py.slice t last (Re.m_start m))] else [])
                ++ [Hyperlink (Re.group m 2) (Re.group m 1)])).
Proof.
  unfold process_match, add_hyperlink.
  destruct (last <? Re.m_start m); rewrite !add_run_extend;
    now rewrite <- ?app_assoc.
Qed.

Lemma process_matches_extend t ms : forall last p rs,
  fold_left (process_match t) ms (last, extend p rs) =
  let r := fold_left (process_match t) ms (last, extend bullet_paragraph rs) in
  (r.1, extend p (p_runs r.2)).
Proof.
  induction ms as [|m ms IH]; intros last p rs; cbn [fold_left].
  - reflexivity.
  - rewrite !process_match_extend. rewrite IH.
    now rewrite (IH _ bullet_paragraph).
Qed.

(** [process_text_with_hyperlinks] only appends to the paragraph, and what
    it appends is [toRuns] of the text. *)
Lemma process_text_appends p t :
  process_text_with_hyperlinks p t = extend p (toRuns t).
Proof.
  unfold toRuns, process_text_with_hyperlinks.
  rewrite <- (extend_nil p) at 1. rewrite <- (extend_nil bullet_paragraph) at 1.
  rewrite process_matches_extend. simpl.
  destruct (fold_left _ _ _) as [last q]. simpl.
  destruct (last <? String.length t); [|reflexivity].
  rewrite add_run_extend. unfold extend. simpl. reflexivity.
Qed.

Lemma bullets_emitted its st :
  for_each its (fun bullet_item =>
    h ← add_paragraph bullet_paragraph;
    update_paragraph h (fun p => process_text_with_hyperlinks p bullet_item)) st
  = (inr tt, set_doc (doc st ++ map Spec.bullet its) st).
Proof.
  rewrite <- (map_id its) at 1.
  rewrite (for_each_emits id _ (fun item => [Spec.bullet item])).
  - reflexivity.
  - intros item st'. rewrite add_then_update. rewrite process_text_appends.
    reflexivity.
Qed.

Lemma render_item_emits e st :
  render_item (Spec.entry_dict e) st
  = (inr tt, set_doc (doc st ++ Spec.render_entry e) st).
Proof.
  unfold render_item, Spec.render_entry, Spec.entry_heading, Spec.entry_dict.
  unfold mbind, M_bind, bind, getitem, ret, add_heading, stripToPlainText. simpl.
  destruct (Py.truthy (Spec.position e)); simpl.
  - destruct (Py.truthy (Spec.date e)); simpl;
      rewrite bullets_emitted; simpl; now rewrite <- app_assoc.
  - now rewrite bullets_emitted.
Qed.

Lemma keyed_dict {A B} (f : A -> B) (key : B -> option Z) (k : A -> Z) l st :
  (forall x, key (f x) = Some (k x)) ->
  keyed key (map f l) st = (inr (map (fun x => (k x, f x)) l), st).
Proof.
  intros Hkey. induction l as [|x l IH]; simpl; [reflexivity|].
  unfold mbind, M_bind, bind. rewrite Hkey. simpl. now rewrite IH.
Qed.

Lemma sorted_dict {A B} (f : A -> B) (key : B -> option Z) (k : A -> Z) l st :
  (forall x, key (f x) = Some (k x)) ->
  sorted_by_id_reverse key (map f l) st
  = (inr (map f (Spec.by_descending_id k l)), st).
Proof.
  intros Hkey. unfold sorted_by_id_reverse.
  erewrite bind_returns by now apply keyed_dict.
  unfold ret, Spec.by_descending_id. do 2 f_equal.
  replace (map (fun x => (k x, f x)) l)
    with (map (fun y : Z * A => (y.1, f y.2)) (map (fun a => (k a, a)) l))
    by now rewrite map_map.
  rewrite sort_desc_map, !map_map. reflexivity.
Qed.

Lemma render_datum_emits s st :
  render_datum (Spec.sect_dict s) st
  = (inr tt, set_doc (doc st ++ Spec.render_section s) st).
Proof.
  unfold render_datum, Spec.render_section, Spec.sect_dict. simpl.
  unfold mbind at 1 2 3, M_bind, bind, getitem, ret, add_heading. simpl.
  erewrite bind_returns by now apply (sorted_dict _ _ Spec.entry_id).
  rewrite (for_each_emits _ _ Spec.render_entry) by apply render_item_emits.
  simpl. now rewrite <- app_assoc.
Qed.

(** The whole run on a payload of the data model. *)
Lemma generate_resume_payload (r : Spec.Resume) output_file st :
  generate_resume (Spec.resume_dict r) output_file st
  = (inr tt,
     State (doc st ++ Spec.render r)%list
           (<[output_file := (doc st ++ Spec.render r)%list]> (files st))
           (log st ++ [(INFO, ("Resume saved to " ++ output_file)%string)])%list).
Proof.
  unfold generate_resume, try_except, build_and_save, Spec.render, Spec.resume_dict.
  simpl. unfold mbind at 1 2 3 4 5 6 7, M_bind, bind, getitem, ret, add_heading.
  simpl.
  erewrite bind_returns by now apply (sorted_dict _ _ Spec.sect_id).
  erewrite bind_returns
    by (apply (for_each_emits _ _ Spec.render_section), render_datum_emits).
  unfold mbind, M_bind, bind, save, logger. simpl.
  rewrite <- !app_assoc. reflexivity.
Qed.
End ResumeFacts.

(** The same run on a payload whose dates are optional. *)
Section PayloadFacts.
Import ResumeGen.

Lemma for_each_emits_if {A B} (f : A -> B) (body : B -> M unit)
    (g : A -> list block) (ok : A -> bool) l :
  (forall x st, ok x = true -> body (f x) st = (inr tt, set_doc (doc st ++ g x) st)) ->
  forallb ok l = true ->
  forall st, for_each (map f l) body st = (inr tt, set_doc (doc st ++ flat_map g l) st).
Proof.
  intros Hbody. induction l as [|x l IH]; simpl; intros Hok st.
  - now rewrite app_nil_r, set_doc_same.
  - apply andb_prop in Hok as [Hx Hl].
    erewrite bind_returns by now apply Hbody. rewrite IH by exact Hl. simpl.
    now rewrite <- app_assoc.
Qed.

Lemma forallb_sorted {A} (key : A -> Z) (ok : A -> bool) l :
  forallb ok l = true -> forallb ok (Spec.by_descending_id key l) = true.
Proof.
  rewrite !forallb_forall. intros Hall x Hin. apply Hall.
  destruct (by_descending_id_stable key l) as [Hperm _].
  eapply Permutation_in; [symmetry; exact Hperm | exact Hin].
Qed.

Lemma payload_item_emits e st :
  Payload.dated_entry e = true ->
  render_item (Payload.entry_dict e) st
  = (inr tt, set_doc (doc st ++ Payload.render_entry e) st).
Proof.
  unfold Payload.dated_entry, render_item, Payload.render_entry,
    Payload.entry_heading, Payload.entry_dict.
  unfold mbind, M_bind, bind, getitem, ret, add_heading, stripToPlainText. simpl.
  destruct (Py.truthy (Payload.position e)); simpl.
  - intros Hd%bool_decide_eq_true. destruct Hd as [d ->]. simpl.
    destruct (Py.truthy d); simpl;
      rewrite bullets_emitted; simpl; now rewrite <- app_assoc.
  - intros _. now rewrite bullets_emitted.
Qed.

Lemma payload_datum_emits s st :
  forallb Payload.dated_entry (Payload.content s) = true ->
  render_datum (Payload.sect_dict s) st
  = (inr tt, set_doc (doc st ++ Payload.render_section s) st).
Proof.
  intros Hd. unfold render_datum, Payload.render_section, Payload.sect_dict. simpl.
  unfold mbind at 1 2 3, M_bind, bind, getitem, ret, add_heading. simpl.
  erewrite bind_returns by now apply (sorted_dict _ _ Payload.entry_id).
  rewrite (for_each_emits_if _ _ Payload.render_entry Payload.dated_entry).
  - simpl. now rewrite <- app_assoc.
  - intros x st' Hx. now apply payload_item_emits.
  - now apply forallb_sorted.
Qed.

Lemma generate_resume_dated (r : Payload.Resume) output_file st :
  Payload.dated r = true ->
  generate_resume (Payload.resume_dict r) output_file st
  = (inr tt,
     State (doc st ++ Payload.render r)%list
           (<[output_file := (doc st ++ Payload.render r)%list]> (files st))
           (log st ++ [(INFO, ("Resume saved to " ++ output_file)%string)])%list).
Proof.
  intros Hd.
  unfold generate_resume, try_except, build_and_save, Payload.render,
    Payload.resume_dict.
  simpl. unfold mbind at 1 2 3 4 5 6 7, M_bind, bind, getitem, ret, add_heading.
  simpl.
  erewrite bind_returns by now apply (sorted_dict _ _ Payload.sect_id).
  erewrite bind_returns.
  2:{ apply (for_each_emits_if _ _ Payload.render_section
               (fun s => forallb Payload.dated_entry (Payload.content s))).
      - intros s st' Hs. now apply payload_datum_emits.
      - now apply forallb_sorted. }
  unfold mbind, M_bind, bind, save, logger. simpl.
  rewrite <- !app_assoc. reflexivity.
Qed.

(** A payload with every date present is a dated payload, with the same
    dictionary and the same rendering. *)
Lemma of_resume_dict r : Payload.resume_dict (Payload.of_resume r) = Spec.resume_dict r.
Proof.
  unfold Payload.resume_dict, Spec.resume_dict, Payload.of_resume. simpl.
  do 2 f_equal. rewrite map_map. apply map_ext. intros s.
  unfold Payload.sect_dict, Spec.sect_dict, Payload.of_sect. simpl.
  do 2 f_equal. now rewrite map_map.
Qed.

Lemma of_resume_dated r : Payload.dated (Payload.of_resume r) = true.
Proof.
  unfold Payload.dated, Payload.of_resume. simpl.
  apply forallb_forall. intros s' [s [<- _]]%in_map_iff. simpl.
  apply forallb_forall. intros e' [e [<- _]]%in_map_iff.
  unfold Payload.dated_entry. simpl. apply orb_true_r.
Qed.

Lemma of_resume_render r : Payload.render (Payload.of_resume r) = Spec.render r.
Proof.
  pose proof (generate_resume_dated (Payload.of_resume r) "" (State [] ∅ [])
                (of_resume_dated r)) as Hp.
  rewrite of_resume_dict, generate_resume_payload in Hp.
  apply (f_equal (fun x => doc x.2)) in Hp. simpl in Hp. now symmetry.
Qed.
End PayloadFacts.

(** The repository's own tests, on the embedding. *)
Example test_remove_hyperlink :
  ResumeGen.remove_hyperlink
    "Senior Software Engineer, <a href='https://www.example.com'>Example</a>"
  = "Senior Software Engineer, Example".
Proof. reflexivity. Qed.

Example test_generate_resume_structure :
  let entry :=
    ResumeGen.Build_Entry (Some 1%Z)
      (Some "Senior Software Engineer, <a href='https://www.example.com'>Example</a>")
      (Some "2021-Present")
      (Some ["Test item with <a href='https://test.com'>Test Link</a>."]) in
  let resume_data :=
    ResumeGen.Build_Resume
      (Some (ResumeGen.Build_Header (Some "Nicholas Borbaki")
               (Some "Senior Software Engineer")))
      (Some [ResumeGen.Build_Sect (Some 5%Z) (Some "Experience") (Some [entry])]) in
  let out := ResumeGen.generate_resume resume_data "output.docx" (State [] ∅ []) in
  out.1 = inr tt /\
  doc out.2 =
    [Heading "Nicholas Borbaki" 0; Heading "Senior Software Engineer" 3;
     Heading "Experience" 1;
     Heading "Senior Software Engineer, Example - (2021-Present)" 2;
     Para (Paragraph "List Bullet"
             [Plain "Test item with "; Hyperlink "Test Link" "https://test.com";
              Plain "."] Bullet None None)] /\
  files out.2 !! "output.docx" = Some (doc out.2) /\
  log out.2 = [(INFO, "Resume saved to output.docx")].
Proof. vm_compute. repeat split. Qed.

Example test_generate_resume_invalid_data :
  let invalid_data :=
    ResumeGen.Build_Resume (Some (ResumeGen.Build_Header None None)) (Some []) in
  let out := ResumeGen.generate_resume invalid_data "output.docx" (State [] ∅ []) in
  out.1 = inl (KeyError "name") /\
  log out.2 = [(ERROR, "Failed to generate resume: 'name'")] /\
  files out.2 = ∅.
Proof. vm_compute. repeat split. Qed.

(** ** The resume tree-walker *)

Section ResumeTheorems.
Import ResumeGen.

Lemma bullets_are_bullets its : Forall Spec.is_bullet (map Spec.bullet its).
Proof. induction its; simpl; constructor; [reflexivity | assumption]. Qed.

Lemma render_entry_shape e : Spec.entry_shape (Payload.render_entry e).
Proof.
  unfold Payload.render_entry, Payload.entry_heading.
  destruct (Py.truthy (Payload.position e)); simpl;
    constructor; apply bullets_are_bullets.
Qed.

Lemma render_section_shape s : Spec.section_shape (Payload.render_section s).
Proof.
  unfold Payload.render_section. rewrite flat_map_concat_map. constructor.
  induction (Spec.by_descending_id _ _); simpl; constructor;
    [apply render_entry_shape | assumption].
Qed.

Lemma render_shape r : Spec.document_shape (Payload.render r).
Proof.
  unfold Payload.render. rewrite flat_map_concat_map. constructor.
  induction (Spec.by_descending_id _ _); simpl; constructor;
    [apply render_section_shape | assumption].
Qed.

(** C1, as stated, fails: a payload with header name and title whose entry
    has a position and no date (the date is optional in the data model) is
    not rendered: [item["date"]] raises [KeyError('date')], the document
    stops after the section heading and no file is written. *)
Lemma undated_entry_refutes_render :
  let r := Payload.Build_Resume "Ann" "Engineer"
             [Payload.Build_Sect 1 "Work"
                [Payload.Build_Entry 1 "Engineer" None ["Built it"]]] in
  let out := generate_resume (Payload.resume_dict r) "out.docx" (State [] ∅ []) in
  out.1 = inl (KeyError "date") /\
  doc out.2 = [Heading "Ann" 0; Heading "Engineer" 3; Heading "Work" 1] /\
  doc out.2 <> Payload.render r /\
  files out.2 = ∅.
Proof. vm_compute. repeat split. discriminate. Qed.

(** C1 (amended): on a payload with header name and title in which every
    entry with a non-empty position has a date (possibly empty),
    [generate_resume] returns normally and appends to the document (empty
    for a new generator) exactly the nodes of the specification, in its
    order: a level-0 heading with the name, a level-3 heading with the
    title, then per section a level-1 heading with its title and per entry a
    level-2 heading (when the position is not empty) with the stripped
    position, [" - (date)"] appended when the date is not empty, followed by
    one bullet paragraph per item in the given order.  The nodes have the
    shape the heading levels encode: within an entry nothing but bullets
    follows the entry's heading, so no bullet comes before the heading that
    owns it. *)
Theorem render_emits_nodes_in_order (r : Payload.Resume) (output_file : string)
    (st : state) :
  Payload.dated r = true ->
  let out := generate_resume (Payload.resume_dict r) output_file st in
  out.1 = inr tt /\
  doc out.2 = (doc st ++ Payload.render r)%list /\
  doc (generate_resume (Payload.resume_dict r) output_file (init st).2).2
    = Payload.render r /\
  Payload.render r =
    Heading (Payload.name r) 0 :: Heading (Payload.header_title r) 3 ::
    flat_map (fun s =>
      Heading (Payload.title s) 1 ::
      flat_map (fun e =>
        (if Py.truthy (Payload.position e) then
           [Heading (match Payload.date e with
                     | Some d =>
                         if Py.truthy d
                         then stripToPlainText (Payload.position e)
                              ++ " - (" ++ d ++ ")"
                         else stripToPlainText (Payload.position e)
                     | None => stripToPlainText (Payload.position e)
                     end) 2]
         else []) ++
        map (fun item => Para (Paragraph "List Bullet" (toRuns item) Bullet None None))
            (Payload.items e))%list
        (Spec.by_descending_id Payload.entry_id (Payload.content s)))
      (Spec.by_descending_id Payload.sect_id (Payload.contents r)) /\
  Spec.document_shape (Payload.render r).
Proof.
  intros Hd. simpl. rewrite !generate_resume_dated by exact Hd. simpl.
  split; [reflexivity|]. split; [reflexivity|]. split; [reflexivity|].
  split; [reflexivity|]. apply render_shape.
Qed.

(** C2: sections, and the entries of each section, are rendered in the
    order of a stable sort by descending id: the rendered order holds the
    same elements, ids never increase along it, and elements with the same
    id keep their input order.  Ids 3, 1, 2 are rendered as 3, 2, 1, and two
    elements with id 2 stay in input order. *)
Theorem rendered_by_descending_id :
  (forall (r : Spec.Resume) output_file st,
     doc (generate_resume (Spec.resume_dict r) output_file st).2 =
     (doc st ++
      Heading (Spec.name r) 0 :: Heading (Spec.header_title r) 3 ::
      flat_map (fun s =>
                  Heading (Spec.title s) 1 ::
                  flat_map Spec.render_entry
                    (Spec.by_descending_id Spec.entry_id (Spec.content s)))
               (Spec.by_descending_id Spec.sect_id (Spec.contents r)))%list) /\
  (forall (ss : list Spec.Sect),
     Spec.stable_descending Spec.sect_id ss (Spec.by_descending_id Spec.sect_id ss)) /\
  (forall (es : list Spec.Entry),
     Spec.stable_descending Spec.entry_id es (Spec.by_descending_id Spec.entry_id es)) /\
  (forall A (key : A -> Z) (a b c : A),
     key a = 3%Z -> key b = 1%Z -> key c = 2%Z ->
     Spec.by_descending_id key [a; b; c] = [a; c; b]) /\
  (forall A (key : A -> Z) (x a y b : A),
     key x = 1%Z -> key a = 2%Z -> key y = 3%Z -> key b = 2%Z ->
     Spec.by_descending_id key [x; a; y; b] = [y; a; b; x]).
Proof.
  split; [|split; [|split; [|split]]].
  - intros r output_file st. now rewrite generate_resume_payload.
  - intros ss. apply by_descending_id_stable.
  - intros es. apply by_descending_id_stable.
  - intros A key a b c Ha Hb Hc. unfold Spec.by_descending_id. simpl.
    rewrite Ha, Hb, Hc. reflexivity.
  - intros A key x a y b Hx Ha Hy Hb. unfold Spec.by_descending_id. simpl.
    rewrite Hx, Ha, Hy, Hb. reflexivity.
Qed.
End ResumeTheorems.

(** ** What the effects leave unchanged, and how they fail *)

Lemma keeps_ret {A} (a : A) : keeps_files (ret a).
Proof. intros st. reflexivity. Qed.

Lemma keeps_raise {A} e : keeps_files (@raise A e).
Proof. intros st. reflexivity. Qed.

Lemma keeps_bind {A B} (m : M A) (f : A -> M B) :
  keeps_files m -> (forall a, keeps_files (f a)) -> keeps_files (m ≫= f).
Proof.
  intros Hm Hf st. unfold mbind, M_bind, bind. specialize (Hm st).
  destruct (m st) as [[e|a] st']; simpl in *; [exact Hm|].
  now rewrite (Hf a st').
Qed.

Lemma keeps_getitem {A} (v : option A) key : keeps_files (getitem v key).
Proof. intros st. now destruct v. Qed.

Lemma keeps_if {A} (b : bool) (m1 m2 : M A) :
  keeps_files m1 -> keeps_files m2 -> keeps_files (if b then m1 else m2).
Proof. now destruct b. Qed.

Lemma keeps_for_each {A} (l : list A) (body : A -> M unit) :
  (forall x, keeps_files (body x)) -> keeps_files (for_each l body).
Proof.
  intros Hbody. induction l as [|x l IH]; simpl.
  - apply keeps_ret.
  - apply keeps_bind; [apply Hbody | intros _; exact IH].
Qed.

Lemma keeps_keyed {A} key (l : list A) : keeps_files (keyed key l).
Proof.
  induction l as [|x l IH]; simpl; [apply keeps_ret|].
  apply keeps_bind; [apply keeps_getitem|]. intros k.
  apply keeps_bind; [exact IH|]. intros r. apply keeps_ret.
Qed.

Lemma keeps_sorted {A} key (l : list A) : keeps_files (sorted_by_id_reverse key l).
Proof.
  apply keeps_bind; [apply keeps_keyed | intros kl; apply keeps_ret].
Qed.

Lemma no_file_bind {A B} (m : M A) (f : A -> M B) :
  keeps_files m -> (forall a, no_file_on_error (f a)) -> no_file_on_error (m ≫= f).
Proof.
  intros Hm Hf st e. unfold mbind, M_bind, bind. specialize (Hm st).
  destruct (m st) as [[e'|a] st'] eqn:Hrun; simpl in *; [now intros _|].
  intros He. rewrite (Hf a st' e He). exact Hm.
Qed.

Lemma no_file_try {A} (m : M A) (h : exn -> M A) :
  no_file_on_error m -> (forall e, keeps_files (h e)) ->
  no_file_on_error (try_except m h).
Proof.
  intros Hm Hh st e. unfold try_except. specialize (Hm st).
  destruct (m st) as [[e'|a] st'] eqn:Hrun; simpl in *; [|discriminate].
  intros _. rewrite Hh. now apply (Hm e').
Qed.

Lemma fails_bind_l {A B} (m : M A) (f : A -> M B) : fails m -> fails (m ≫= f).
Proof.
  intros Hm st. destruct (Hm st) as [e He]. exists e.
  unfold mbind, M_bind, bind. destruct (m st) as [[e'|a] st']; simpl in *; congruence.
Qed.

Lemma bind_fails_after {A B} (m : M A) (f : A -> M B) st :
  (forall a st', m st = (inr a, st') -> exists e, (f a st').1 = inl e) ->
  exists e, ((m ≫= f) st).1 = inl e.
Proof.
  intros Hf. unfold mbind, M_bind, bind.
  destruct (m st) as [[e|a] st'] eqn:Hrun; [now exists e|].
  now apply Hf.
Qed.

Lemma fails_bind_r {A B} (m : M A) (f : A -> M B) :
  (forall st a st', m st = (inr a, st') -> exists e, (f a st').1 = inl e) ->
  fails (m ≫= f).
Proof.
  intros Hf st. unfold mbind, M_bind, bind.
  destruct (m st) as [[e|a] st'] eqn:Hrun; [now exists e|].
  now apply (Hf st).
Qed.

Lemma fails_for_each {A} (l : list A) (body : A -> M unit) x :
  x ∈ l -> fails (body x) -> fails (for_each l body).
Proof.
  intros Hin Hx. induction Hin as [x l | x y l Hin IH]; simpl.
  - now apply fails_bind_l.
  - apply fails_bind_r. intros st a st' _. now apply IH.
Qed.

Lemma fails_try {A} (m : M A) (h : exn -> M A) :
  fails m -> (forall e, fails (h e)) -> fails (try_except m h).
Proof.
  intros Hm Hh st. unfold try_except. destruct (Hm st) as [e He].
  destruct (m st) as [[e'|a] st']; simpl in *; [apply Hh | discriminate].
Qed.

Lemma only_key_ret {A} (a : A) : only_key_errors (ret a).
Proof. intros st e. discriminate. Qed.

Lemma only_key_getitem {A} (v : option A) key : only_key_errors (getitem v key).
Proof. intros st e. destruct v; simpl; [discriminate|]. intros [= <-]. now exists key. Qed.

Lemma only_key_bind {A B} (m : M A) (f : A -> M B) :
  only_key_errors m -> (forall a, only_key_errors (f a)) -> only_key_errors (m ≫= f).
Proof.
  intros Hm Hf st e. unfold mbind, M_bind, bind. specialize (Hm st).
  destruct (m st) as [[e'|a] st']; simpl in *; [|apply Hf].
  intros [= <-]. now apply Hm.
Qed.

Lemma only_key_if {A} (b : bool) (m1 m2 : M A) :
  only_key_errors m1 -> only_key_errors m2 -> only_key_errors (if b then m1 else m2).
Proof. now destruct b. Qed.

Lemma only_key_for_each {A} (l : list A) (body : A -> M unit) :
  (forall x, only_key_errors (body x)) -> only_key_errors (for_each l body).
Proof.
  intros Hbody. induction l as [|x l IH]; simpl.
  - apply only_key_ret.
  - apply only_key_bind; [apply Hbody | intros _; exact IH].
Qed.

Lemma only_key_keyed {A} key (l : list A) : only_key_errors (keyed key l).
Proof.
  induction l as [|x l IH]; simpl; [apply only_key_ret|].
  apply only_key_bind; [apply only_key_getitem|]. intros k.
  apply only_key_bind; [exact IH|]. intros r. apply only_key_ret.
Qed.

Lemma only_key_sorted {A} key (l : list A) : only_key_errors (sorted_by_id_reverse key l).
Proof.
  apply only_key_bind; [apply only_key_keyed | intros kl; apply only_key_ret].
Qed.

(** [sorted] raises or returns the elements it was given, reordered, and
    leaves the state alone. *)
Lemma keyed_returns {A} key (l : list A) st kl st' :
  keyed key l st = (inr kl, st') -> st' = st /\ map snd kl = l.
Proof.
  revert kl. induction l as [|x l IH]; intros kl; simpl.
  - intros [= <- <-]. now split.
  - unfold mbind, M_bind, bind, getitem. destruct (key x) as [k|]; simpl; [|discriminate].
    destruct (keyed key l st) as [[e|r] st1]; [discriminate|].
    intros [= <- <-]. destruct (IH r eq_refl) as [-> <-]. now split.
Qed.

Lemma sorted_returns {A} key (l : list A) st l' st' :
  sorted_by_id_reverse key l st = (inr l', st') -> st' = st /\ Permutation l l'.
Proof.
  unfold sorted_by_id_reverse, mbind, M_bind, bind.
  destruct (keyed key l st) as [[e|kl] st1] eqn:Hk; [discriminate|].
  intros [= <- <-]. apply keyed_returns in Hk as [-> <-].
  split; [reflexivity|]. apply Permutation_map, sort_desc_perm.
Qed.

Lemma keeps_add_heading t l : keeps_files (add_heading t l).
Proof. intros st. reflexivity. Qed.

Lemma keeps_add_paragraph p : keeps_files (add_paragraph p).
Proof. intros st. reflexivity. Qed.

Lemma keeps_update_paragraph h f : keeps_files (update_paragraph h f).
Proof. intros st. reflexivity. Qed.

Lemma keeps_new_document : keeps_files new_document.
Proof. intros st. reflexivity. Qed.

Lemma keeps_logger l msg : keeps_files (logger l msg).
Proof. intros st. reflexivity. Qed.

Lemma only_key_add_heading t l : only_key_errors (add_heading t l).
Proof. intros st e. discriminate. Qed.

Lemma only_key_add_paragraph p : only_key_errors (add_paragraph p).
Proof. intros st e. discriminate. Qed.

Lemma only_key_update_paragraph h f : only_key_errors (update_paragraph h f).
Proof. intros st e. discriminate. Qed.

Lemma only_key_save out : only_key_errors (save out).
Proof. intros st e. discriminate. Qed.

Lemma only_key_logger l msg : only_key_errors (logger l msg).
Proof. intros st e. discriminate. Qed.

(** Saving and logging never raise. *)
Lemma no_file_save_log out l msg : no_file_on_error (save out ;; logger l msg).
Proof. intros st e. discriminate. Qed.

Ltac keeps :=
  repeat first
    [ progress intros
    | progress cbv beta zeta
    | apply keeps_getitem | apply keeps_ret | apply keeps_raise
    | apply keeps_add_heading | apply keeps_add_paragraph
    | apply keeps_update_paragraph | apply keeps_new_document
    | apply keeps_logger | apply keeps_sorted | apply keeps_for_each
    | apply keeps_if | apply keeps_bind ].

Ltac only_keys :=
  repeat first
    [ progress intros
    | progress cbv beta zeta
    | apply only_key_getitem | apply only_key_ret
    | apply only_key_add_heading | apply only_key_add_paragraph
    | apply only_key_update_paragraph | apply only_key_save
    | apply only_key_logger | apply only_key_sorted | apply only_key_for_each
    | apply only_key_if | apply only_key_bind ].

(** The handler of both programs logs and raises the exception again. *)
Lemma only_key_reraise {A} (m : M A) (msg : exn -> string) :
  only_key_errors m ->
  only_key_errors (try_except m (fun e => logger ERROR (msg e) ;; raise e)).
Proof.
  intros Hm st e. unfold try_except. specialize (Hm st).
  destruct (m st) as [[e'|a] st']; simpl in *; [|discriminate].
  intros [= <-]. now apply Hm.
Qed.

Lemma fails_reraise {A} (m : M A) (msg : exn -> string) :
  fails m -> fails (try_except m (fun e => logger ERROR (msg e) ;; raise e)).
Proof.
  intros Hm. apply fails_try; [exact Hm|]. intros e st. now exists e.
Qed.

Lemma getitem_returns {A} (v : option A) key st a st' :
  getitem v key st = (inr a, st') -> v = Some a.
Proof. destruct v; simpl; [now intros [= <- _] | discriminate]. Qed.

Section ResumeFailures.
Import ResumeGen.

Lemma keeps_render_item item : keeps_files (render_item item).
Proof. unfold render_item. keeps. Qed.

Lemma keeps_render_datum datum : keeps_files (render_datum datum).
Proof. unfold render_datum. keeps. Qed.

Lemma only_key_render_item item : only_key_errors (render_item item).
Proof. unfold render_item. only_keys. Qed.

Lemma only_key_render_datum datum : only_key_errors (render_datum datum).
Proof. unfold render_datum. only_keys. Qed.

Lemma no_file_build_and_save r out : no_file_on_error (build_and_save r out).
Proof.
  unfold build_and_save.
  repeat (apply no_file_bind; [solve [keeps] | intros]).
  apply no_file_save_log.
Qed.

(** [generate_resume] writes no file when it raises. *)
Lemma no_file_generate_resume r out : no_file_on_error (generate_resume r out).
Proof.
  unfold generate_resume. apply no_file_try; [apply no_file_build_and_save|].
  keeps.
Qed.

(** In this model of well-typed dictionaries every exception of
    [generate_resume] is a [KeyError]. *)
Lemma only_key_generate_resume r out : only_key_errors (generate_resume r out).
Proof.
  unfold generate_resume. apply only_key_reraise. unfold build_and_save.
  only_keys.
Qed.

Lemma render_item_lacking item st :
  entry_lacks_key item ->
  exists k, k ∈ ["position"; "date"; "items"] /\
            (render_item item st).1 = inl (KeyError k).
Proof.
  unfold entry_lacks_key, render_item, mbind, M_bind, bind, getitem.
  destruct item as [i [p|] [d|] [its|]]; simpl;
    intros [Hp | [Hi | (Hd & q & Hq & Hne)]]; try discriminate;
    try (exists "position"; split; [set_solver | reflexivity]);
    try (injection Hq as <-);
    destruct p as [|c p]; simpl; try congruence;
    try (destruct (Py.truthy d); simpl);
    first [ exists "date"; split; [set_solver | reflexivity]
          | exists "items"; split; [set_solver | reflexivity] ].
Qed.

Lemma fails_render_item item : entry_lacks_key item -> fails (render_item item).
Proof.
  intros Hl st. destruct (render_item_lacking item st Hl) as (k & _ & Hk).
  now exists (KeyError k).
Qed.

Lemma fails_render_datum s es item :
  content s = Some es -> item ∈ es -> entry_lacks_key item -> fails (render_datum s).
Proof.
  intros Hc Hin Hl st. unfold render_datum.
  apply bind_fails_after. intros t st1 _.
  apply bind_fails_after. intros _ st2 _.
  apply bind_fails_after. intros c st3 Hget. apply getitem_returns in Hget.
  rewrite Hc in Hget. injection Hget as <-.
  apply bind_fails_after. intros sorted st4 Hs.
  apply sorted_returns in Hs as [-> Hperm].
  apply (fails_for_each sorted render_item item).
  - now rewrite <- Hperm.
  - now apply fails_render_item.
Qed.

Lemma fails_generate_resume r out ss s es item :
  contents r = Some ss -> s ∈ ss -> content s = Some es -> item ∈ es ->
  entry_lacks_key item -> fails (generate_resume r out).
Proof.
  intros Hss Hs Hes Hitem Hl. unfold generate_resume. apply fails_reraise.
  intros st. unfold build_and_save.
  apply bind_fails_after. intros h st1 _.
  apply bind_fails_after. intros n st2 _.
  apply bind_fails_after. intros _ st3 _.
  apply bind_fails_after. intros h' st4 _.
  apply bind_fails_after. intros t st5 _.
  apply bind_fails_after. intros _ st6 _.
  apply bind_fails_after. intros c st7 Hget. apply getitem_returns in Hget.
  rewrite Hss in Hget. injection Hget as <-.
  apply bind_fails_after. intros sorted st8 Hsort.
  apply sorted_returns in Hsort as [-> Hperm].
  apply fails_bind_l.
  apply (fails_for_each sorted render_datum s).
  - now rewrite <- Hperm.
  - now apply (fails_render_datum s es item).
Qed.

Lemma fails_without_header_field r out :
  header_field r name = None \/ header_field r header_title = None ->
  fails (generate_resume r out).
Proof.
  intros Hfield. unfold generate_resume. apply fails_reraise. intros st.
  unfold header_field, build_and_save, mbind, M_bind, bind, getitem in *.
  destruct r as [[[[n|] [t|]]|] c]; simpl in *;
    destruct Hfield; try discriminate; eauto.
Qed.
End ResumeFailures.

(** ** No file without a complete document *)

Lemma saves_bind {A} out (m : M A) (f : A -> M unit) :
  keeps_files m -> (forall a, saves_on_success out (f a)) ->
  saves_on_success out (m ≫= f).
Proof.
  intros Hm Hf st. unfold mbind, M_bind, bind. specialize (Hm st).
  destruct (m st) as [[e|a] st'] eqn:Hrun; simpl in *; [discriminate|].
  intros Hok. rewrite (Hf a st' Hok). now rewrite Hm.
Qed.

Lemma saves_save_log out l msg : saves_on_success out (save out ;; logger l msg).
Proof. intros st _. reflexivity. Qed.

Lemma saves_try out (m : M unit) h :
  saves_on_success out m -> (forall e, fails (h e)) ->
  saves_on_success out (try_except m h).
Proof.
  intros Hm Hh st. unfold try_except. specialize (Hm st).
  destruct (m st) as [[e|[]] st'] eqn:Hrun; simpl in *.
  - destruct (Hh e st') as [e' He']. rewrite He'. discriminate.
  - intros _. now apply Hm.
Qed.

Lemma raise_after_log_fails {A} l msg e : fails (logger l msg ;; @raise A e).
Proof. intros st. now exists e. Qed.

Lemma saves_generate_resume r out : saves_on_success out (ResumeGen.generate_resume r out).
Proof.
  unfold ResumeGen.generate_resume.
  apply saves_try; [|intros e; apply raise_after_log_fails].
  unfold ResumeGen.build_and_save.
  repeat (apply saves_bind; [solve [keeps] | intros]).
  apply saves_save_log.
Qed.

Section CoverLetterFacts.
Import CoverLetter.

Lemma keeps_follows_sincerely data lines line :
  keeps_files (follows_sincerely data lines line).
Proof.
  unfold follows_sincerely. apply keeps_bind; [apply keeps_getitem|]. intros n.
  destruct (String.eqb line n); [|apply keeps_ret].
  destruct (Py.index line lines) as [i|]; [|apply keeps_raise].
  destruct (Py.item_before lines i); apply keeps_ret.
Qed.

Lemma keeps_header_lines data : keeps_files (header_lines data).
Proof. unfold header_lines. keeps. Qed.

Lemma keeps_render_line data lines line : keeps_files (render_line data lines line).
Proof.
  unfold render_line, set_attribute. cbv zeta.
  repeat (apply keeps_if; [solve [keeps]|]).
  apply keeps_bind; [apply keeps_follows_sincerely|]. intros b.
  apply keeps_if; [solve [keeps]|].
  apply keeps_bind; [apply keeps_add_paragraph|]. intros h.
  apply keeps_bind; [apply keeps_header_lines|]. intros hl.
  apply keeps_if; keeps.
Qed.

Lemma no_file_create_cover_letter data template out :
  no_file_on_error (create_cover_letter data template out).
Proof.
  unfold create_cover_letter. apply no_file_try; [|keeps].
  unfold build_and_save. cbv zeta.
  apply no_file_bind; [apply keeps_new_document|]. intros _.
  apply no_file_bind; [|intros _; apply no_file_save_log].
  apply keeps_for_each. intros line. apply keeps_render_line.
Qed.

Lemma saves_create_cover_letter data template out :
  saves_on_success out (create_cover_letter data template out).
Proof.
  unfold create_cover_letter.
  apply saves_try; [|intros e; apply raise_after_log_fails].
  unfold build_and_save. cbv zeta.
  apply saves_bind; [apply keeps_new_document|]. intros _.
  apply saves_bind; [|intros _; apply saves_save_log].
  apply keeps_for_each. intros line. apply keeps_render_line.
Qed.
End CoverLetterFacts.

(** C6: rendering a resume without [header.name] or [header.title] raises
    (a [KeyError]) and writes no file; whenever [generate_resume] or
    [create_cover_letter] raises, the files are as before; and when either
    returns, the one file written is the document as finally built. *)
Theorem failure_leaves_no_file :
  (forall r out st,
     header_field r ResumeGen.name = None \/
     header_field r ResumeGen.header_title = None ->
     (exists k, (ResumeGen.generate_resume r out st).1 = inl (KeyError k)) /\
     files (ResumeGen.generate_resume r out st).2 = files st) /\
  (forall r out st e,
     (ResumeGen.generate_resume r out st).1 = inl e ->
     files (ResumeGen.generate_resume r out st).2 = files st) /\
  (forall data template out st e,
     (CoverLetter.create_cover_letter data template out st).1 = inl e ->
     files (CoverLetter.create_cover_letter data template out st).2 = files st) /\
  (forall r out st,
     (ResumeGen.generate_resume r out st).1 = inr tt ->
     files (ResumeGen.generate_resume r out st).2
     = <[out := doc (ResumeGen.generate_resume r out st).2]> (files st)) /\
  (forall data template out st,
     (CoverLetter.create_cover_letter data template out st).1 = inr tt ->
     files (CoverLetter.create_cover_letter data template out st).2
     = <[out := doc (CoverLetter.create_cover_letter data template out st).2]>
         (files st)).
Proof.
  split; [|split; [|split; [|split]]].
  - intros r out st Hfield.
    destruct (fails_without_header_field r out Hfield st) as [e He].
    destruct (only_key_generate_resume r out st e He) as [k ->].
    split; [now exists k|]. now apply (no_file_generate_resume r out st _ He).
  - intros r out st e. apply no_file_generate_resume.
  - intros data template out st e. apply no_file_create_cover_letter.
  - intros r out st. apply saves_generate_resume.
  - intros data template out st. apply saves_create_cover_letter.
Qed.

Lemma failure_leaves_no_file_witness :
  let r := ResumeGen.Build_Resume
             (Some (ResumeGen.Build_Header None None)) (Some []) in
  let st := State [] ∅ [] in
  (exists k, (ResumeGen.generate_resume r "output.docx" st).1 = inl (KeyError k)) /\
  files (ResumeGen.generate_resume r "output.docx" st).2 = files st.
Proof.
  apply (proj1 failure_leaves_no_file). left. reflexivity.
Defined.

(** C9 (amended): an entry without [position] or without [items], or
    without [date] while its position is not empty, makes [render_item]
    raise a [KeyError] for one of these keys; a resume holding such an entry
    makes [generate_resume] raise a [KeyError] and write no file; an entry
    with an empty position and no [date] key is rendered without error. *)
Theorem entry_lacking_key_aborts :
  (forall item st,
     entry_lacks_key item ->
     exists k, k ∈ ["position"; "date"; "items"] /\
               (ResumeGen.render_item item st).1 = inl (KeyError k)) /\
  (forall r out st ss s es item,
     ResumeGen.contents r = Some ss -> s ∈ ss ->
     ResumeGen.content s = Some es -> item ∈ es ->
     entry_lacks_key item ->
     (exists k, (ResumeGen.generate_resume r out st).1 = inl (KeyError k)) /\
     files (ResumeGen.generate_resume r out st).2 = files st) /\
  (forall i its st,
     (ResumeGen.render_item
        (ResumeGen.Build_Entry i (Some "") None (Some its)) st).1 = inr tt).
Proof.
  split; [|split].
  - intros item st Hl. now apply render_item_lacking.
  - intros r out st ss s es item Hss Hs Hes Hitem Hl.
    destruct (fails_generate_resume r out ss s es item Hss Hs Hes Hitem Hl st)
      as [e He].
    destruct (only_key_generate_resume r out st e He) as [k ->].
    split; [now exists k|]. now apply (no_file_generate_resume r out st _ He).
  - intros i its st. unfold ResumeGen.render_item.
    unfold mbind at 1 2 3, M_bind, bind, getitem, ret. simpl.
    now rewrite bullets_emitted.
Qed.

Lemma entry_lacking_key_aborts_witness :
  exists k, k ∈ ["position"; "date"; "items"] /\
    (ResumeGen.render_item
       (ResumeGen.Build_Entry (Some 1%Z) (Some "Engineer") None (Some ["x"]))
       (State [] ∅ [])).1 = inl (KeyError k).
Proof.
  apply (proj1 entry_lacking_key_aborts).
  right. right. split; [reflexivity|]. exists "Engineer". split; [reflexivity | discriminate].
Defined.

(** C9, as stated, fails: an entry without the [date] key whose position is
    empty is rendered, and the resume is saved. *)
Lemma entry_without_date_renders :
  let item := ResumeGen.Build_Entry (Some 1%Z) (Some "") None (Some ["x"]) in
  let r := ResumeGen.Build_Resume
             (Some (ResumeGen.Build_Header (Some "N") (Some "T")))
             (Some [ResumeGen.Build_Sect (Some 5%Z) (Some "Experience") (Some [item])]) in
  ResumeGen.date item = None /\
  ~ exists e, (ResumeGen.generate_resume r "output.docx" (State [] ∅ [])).1 = inl e.
Proof.
  split; [reflexivity|]. intros [e He]. vm_compute in He. discriminate He.
Qed.

(** ** The cover letter *)

Section CoverLetterTheorems.
Import CoverLetter.

(** C4, as stated, fails: with the example template and the name Ann the
    paragraphs are not salutation, body, closing, signature name; the second
    one is made by the header-line branch of the classifier (the line is
    equal to [data['name']]), not by the body branch, and so is the
    fourth. *)
Lemma example_roles_differ :
  let d := doc (create_cover_letter
                  (example_data "1 Main Street" "555-0100" "ann@example.com"
                     "May 24, 2025" "Principal Software Engineer" "Acme")
                  example_template "cover_letter.docx" (State [] ∅ [])).2 in
  map block_role d
    <> [Some Salutation; Some Body; Some Closing; Some SignatureName] /\
  map block_role d
    = [Some Salutation; Some HeaderLine; Some Closing; Some HeaderLine] /\
  d !! 1 = Some (Para (normal "Ann" HeaderLine None None)).
Proof. vm_compute. repeat split; discriminate. Qed.

(** The lookup of the line before the signature goes through
    [lines.index(line)], the first line equal to the name: the last "Ann" of
    the example is compared with the line before the first one, and is
    handled as a header line. *)
Lemma signature_lookup_takes_first_occurrence
    (address phone email date position company out : string) (st : state) :
  last (doc (create_cover_letter
               (example_data address phone email date position company)
               example_template out st).2)
  = Some (Para (normal "Ann" HeaderLine None None)).
Proof. vm_compute. reflexivity. Qed.

(** C4 (amended): with the example template and [data.name = "Ann"], whatever
    the other six values, [create_cover_letter] returns and the document has
    four paragraphs with the texts "Dear Hiring Manager,", "Ann",
    "Sincerely,", "Ann", all of style Normal; the first is made by the
    salutation branch of the classifier, the second by the header-line
    branch (neither body nor signature name) and the third by the closing
    branch. *)
Theorem cover_letter_example
    (address phone email date position company out : string) (st : state) :
  let res := create_cover_letter
               (example_data address phone email date position company)
               example_template out st in
  res.1 = inr tt /\
  map block_text (doc res.2) = ["Dear Hiring Manager,"; "Ann"; "Sincerely,"; "Ann"] /\
  firstn 3 (doc res.2) =
    [Para (Paragraph "Normal" [Plain "Dear Hiring Manager,"] Salutation None None);
     Para (Paragraph "Normal" [Plain "Ann"] HeaderLine None None);
     Para (Paragraph "Normal" [Plain "Sincerely,"] Closing None None)].
Proof. cbv zeta. vm_compute. repeat split. Qed.

Lemma check_field_ok header field st :
  field_ok header field = true -> check_field header field st = (inr tt, st).
Proof.
  unfold field_ok, check_field. destruct (header !! field) as [v|]; [|discriminate].
  now intros ->.
Qed.

Lemma check_field_missing header field st :
  field_ok header field = false ->
  check_field header field st = (inl (ValueError (missing_message field)), st).
Proof.
  unfold field_ok, check_field. destruct (header !! field) as [v|]; [|reflexivity].
  now intros ->.
Qed.

(** The validation loop stops at the first field that is missing or empty. *)
Lemma validate_fields header fields st :
  for_each fields (check_field header) st =
  match List.find (fun field => negb (field_ok header field)) fields with
  | Some field => (inl (ValueError (missing_message field)), st)
  | None => (inr tt, st)
  end.
Proof.
  induction fields as [|f fields IH]; simpl; [reflexivity|].
  destruct (field_ok header f) eqn:Hf; simpl.
  - erewrite bind_returns by now apply check_field_ok. exact IH.
  - erewrite bind_raises by now apply check_field_missing. reflexivity.
Qed.

Lemma main_body_first_missing template json_data today position company out st field :
  first_missing (default ∅ (json_header json_data)) = Some field ->
  main_body template json_data today position company out st
  = (inl (ValueError (missing_message field)), st).
Proof.
  intros Hfirst. unfold main_body. cbv zeta.
  apply bind_raises. unfold validate. rewrite validate_fields.
  unfold first_missing in Hfirst. now rewrite Hfirst.
Qed.

Lemma main_first_missing template json_data today position company out st field :
  first_missing (default ∅ (json_header json_data)) = Some field ->
  main template json_data today position company out st
  = (inr 1, State (doc st) (files st)
              (log st ++ [(CRITICAL,
                           ("Application failed: " ++ missing_message field)%string)])).
Proof.
  intros Hfirst. unfold main, try_except.
  pose proof (main_body_first_missing template json_data today position company
                out st field Hfirst) as Hbody.
  rewrite (bind_raises _ (fun _ => ret 0) _ _ _ Hbody).
  reflexivity.
Qed.

(** C5, as stated, fails: with every required field missing the error
    names [name] only; it does not cover [phone]. *)
Lemma missing_fields_not_all_reported :
  ~ (forall field, field ∈ required_fields ->
       (∅ : gmap string string) !! field = None ->
       exists msg,
         (main_body "" (Build_Json (Some ∅)) "May 24, 2025" "Engineer" "Acme"
            "cover_letter.docx" (State [] ∅ [])).1 = inl (ValueError msg) /\
         Py.contains ("'" ++ field ++ "'") msg = true).
Proof.
  intros Hall. destruct (Hall "phone") as (msg & Hmsg & Hin).
  - set_solver.
  - reflexivity.
  - vm_compute in Hmsg. injection Hmsg as <-. vm_compute in Hin. discriminate Hin.
Qed.

(** C5 (amended): the header is validated before anything is rendered, the
    required fields being checked in the order name, phone, email, address;
    when one is missing or empty, [main] raises a [ValueError] naming the
    first such field only, with no document created, no file written and
    nothing logged up to there; [main] then logs the error and exits with
    status 1. *)
Theorem validation_names_first_missing
    template json_data today position company out st field :
  first_missing (default ∅ (json_header json_data)) = Some field ->
  main_body template json_data today position company out st
  = (inl (ValueError ("Missing or empty field '" ++ field ++ "' in JSON header")), st)
  /\
  main template json_data today position company out st
  = (inr 1, State (doc st) (files st)
              (log st ++ [(CRITICAL,
                           ("Application failed: Missing or empty field '"
                            ++ field ++ "' in JSON header")%string)])).
Proof.
  intros Hfirst. split.
  - now apply main_body_first_missing.
  - now apply main_first_missing.
Qed.

Lemma validation_names_first_missing_witness :
  main_body "" (Build_Json (Some {[ "name" := "Ann"; "address" := "" ]}))
    "May 24, 2025" "Engineer" "Acme" "cover_letter.docx" (State [] ∅ [])
  = (inl (ValueError "Missing or empty field 'phone' in JSON header"),
     State [] ∅ []).
Proof.
  apply (validation_names_first_missing "" _ _ _ _ _ _ "phone"). reflexivity.
Defined.

(** C10: a header in which one of name, phone, email, address is the empty
    string is rejected before rendering: [main] raises a [ValueError] that
    names a required field, the state being untouched, and exits with
    status 1 without a file. *)
Theorem empty_field_rejected
    template json_data today position company out st field :
  field ∈ required_fields ->
  default ∅ (json_header json_data) !! field = Some "" ->
  exists reported,
    reported ∈ required_fields /\
    main_body template json_data today position company out st
    = (inl (ValueError ("Missing or empty field '" ++ reported ++ "' in JSON header")),
       st) /\
    (main template json_data today position company out st).1 = inr 1 /\
    doc (main template json_data today position company out st).2 = doc st /\
    files (main template json_data today position company out st).2 = files st.
Proof.
  intros Hin Hempty.
  destruct (first_missing (default ∅ (json_header json_data))) as [reported|] eqn:Hfirst.
  - exists reported. split.
    + unfold first_missing in Hfirst. apply find_some in Hfirst as [Hr _].
      now apply list_elem_of_In.
    + split; [now apply main_body_first_missing|].
      now rewrite (main_first_missing _ _ _ _ _ _ _ reported).
  - exfalso. unfold first_missing in Hfirst.
    apply list_elem_of_In in Hin.
    pose proof (find_none _ _ Hfirst field Hin) as Hok.
    unfold field_ok in Hok. now rewrite Hempty in Hok.
Qed.

Lemma empty_field_rejected_witness :
  exists reported,
    reported ∈ required_fields /\
    main_body "" (Build_Json (Some {[ "name" := "Ann"; "phone" := "555-0100";
                                      "email" := ""; "address" := "1 Main Street" ]}))
      "May 24, 2025" "Engineer" "Acme" "cover_letter.docx" (State [] ∅ [])
    = (inl (ValueError ("Missing or empty field '" ++ reported ++ "' in JSON header")),
       State [] ∅ []).
Proof.
  destruct (empty_field_rejected ""
              (Build_Json (Some {[ "name" := "Ann"; "phone" := "555-0100";
                                   "email" := ""; "address" := "1 Main Street" ]}))
              "May 24, 2025" "Engineer" "Acme" "cover_letter.docx" (State [] ∅ [])
              "email") as (reported & Hr & Hbody & _).
  - set_solver.
  - reflexivity.
  - exists reported. split; assumption.
Defined.
End CoverLetterTheorems.

Lemma rendered_by_descending_id_witness :
  Spec.by_descending_id Z.of_nat [3; 1; 2] = [3; 2; 1] /\
  Spec.by_descending_id fst [(1%Z, "x"); (2%Z, "a"); (3%Z, "y"); (2%Z, "b")]
  = [(3%Z, "y"); (2%Z, "a"); (2%Z, "b"); (1%Z, "x")].
Proof.
  destruct rendered_by_descending_id as (_ & _ & _ & H3 & H4). split.
  - apply (H3 nat Z.of_nat 3 1 2); reflexivity.
  - apply (H4 _ fst (1%Z, "x") (2%Z, "a") (3%Z, "y") (2%Z, "b")); reflexivity.
Defined.

(** * Further properties of the code *)

(** ** The runs of a text *)

Lemma substring_none (n : nat) (s : string) : substring n 0 s = "".
Proof. revert n. induction s as [|c s IH]; intros [|n]; simpl; auto. Qed.

Lemma substring_some (i n : nat) (s : string) :
  i < String.length s -> 0 < n -> substring i n s <> "".
Proof.
  revert i. induction s as [|c s IH]; intros i Hi Hn; simpl in *; [lia|].
  destruct i as [|i].
  - destruct n; [lia | discriminate].
  - apply IH; lia.
Qed.

Lemma runs_text_app (rs1 rs2 : list run) :
  Spec.runs_text (rs1 ++ rs2) = Spec.runs_text rs1 ++ Spec.runs_text rs2.
Proof.
  induction rs1 as [|r rs1 IH]; simpl; [reflexivity|].
  now rewrite IH, append_assoc.
Qed.

Lemma match_at_start r s i m : Re.match_at r s i = Some m -> Re.m_start m = i.
Proof.
  unfold Re.match_at. intros Hm.
  apply exec_sound in Hm as (a & rest & i' & g' & _ & _ & Hk).
  now injection Hk as <-.
Qed.

(** Every match [re.finditer] yields starts inside the text. *)
Lemma scan_starts r s : forall i skip m,
  m ∈ Re.scan r s i skip -> i <= Re.m_start m <= i + String.length s.
Proof.
  induction s as [|c s IH]; intros i skip m; simpl.
  - destruct skip; [|now intros ?%elem_of_nil].
    destruct (Re.match_at r "" i) as [m'|] eqn:Hm; [|now intros ?%elem_of_nil].
    intros ->%list_elem_of_singleton. apply match_at_start in Hm. lia.
  - destruct skip as [|skip].
    + destruct (Re.match_at r (String c s) i) as [m'|] eqn:Hm.
      * intros [-> | Hin]%elem_of_cons.
        -- apply match_at_start in Hm. lia.
        -- apply IH in Hin. lia.
      * intros Hin. apply IH in Hin. lia.
    + intros Hin. apply IH in Hin. lia.
Qed.

Lemma finditer_starts r t m : m ∈ Re.finditer r t -> Re.m_start m <= String.length t.
Proof. intros Hin. apply scan_starts in Hin. lia. Qed.

Lemma no_adjacent_plain_snoc (rs : list run) (r : run) :
  no_adjacent_plain (rs ++ [r]) =
  no_adjacent_plain rs &&
  match last rs with
  | Some r' => negb (is_plain r' && is_plain r)
  | None => true
  end.
Proof.
  induction rs as [|r1 rs IH]; [reflexivity|].
  destruct rs as [|r2 rs]; [simpl; now rewrite !andb_true_r|].
  change (no_adjacent_plain ((r1 :: r2 :: rs) ++ [r]))
    with (negb (is_plain r1 && is_plain r2) && no_adjacent_plain ((r2 :: rs) ++ [r])).
  rewrite IH. change (last (r1 :: r2 :: rs)) with (last (r2 :: rs)).
  change (no_adjacent_plain (r1 :: r2 :: rs))
    with (negb (is_plain r1 && is_plain r2) && no_adjacent_plain (r2 :: rs)).
  now rewrite andb_assoc.
Qed.

Section RunFacts.
Import ResumeGen.

(** The text [re.sub] builds with the label as replacement, step by step
    with the runs of [process_text_with_hyperlinks]. *)
Lemma process_matches_text t ms : forall last p,
  let step := fun '(last_pos, out) m =>
                (Re.m_end m,
                 out ++ Py.slice t last_pos (Re.m_start m) ++ Re.group m 2) in
  (fold_left (process_match t) ms (last, p)).1
    = (fold_left step ms (last, Spec.runs_text (p_runs p))).1 /\
  Spec.runs_text (p_runs (fold_left (process_match t) ms (last, p)).2)
    = (fold_left step ms (last, Spec.runs_text (p_runs p))).2.
Proof.
  induction ms as [|m ms IH]; intros last p step; cbn [fold_left].
  - now split.
  - assert (Hstep : step (last, Spec.runs_text (p_runs p)) m
                    = (Re.m_end m,
                       Spec.runs_text (p_runs (process_match t (last, p) m).2))).
    { unfold step, process_match, add_hyperlink, add_run. f_equal.
      destruct (Nat.ltb_spec last (Re.m_start m)) as [Hlt|Hge]; simpl.
      - rewrite !runs_text_app. simpl. now rewrite !append_empty_r, append_assoc.
      - unfold Py.slice. replace (Re.m_start m - last) with 0 by lia.
        rewrite substring_none, runs_text_app. simpl. now rewrite append_empty_r. }
    rewrite Hstep.
    replace (process_match t (last, p) m)
      with (Re.m_end m, (process_match t (last, p) m).2)
      by (unfold process_match; reflexivity).
    apply IH.
Qed.

(** What one match adds keeps plain runs non-empty and apart, and ends
    with the hyperlink. *)
Lemma process_match_runs t pos p m :
  Re.m_start m <= String.length t ->
  Forall (fun r => r <> Plain "") (p_runs p) ->
  no_adjacent_plain (p_runs p) = true ->
  (forall r, last (p_runs p) = Some r -> is_plain r = false) ->
  let p' := (process_match t (pos, p) m).2 in
  Forall (fun r => r <> Plain "") (p_runs p') /\
  no_adjacent_plain (p_runs p') = true /\
  (forall r, last (p_runs p') = Some r -> is_plain r = false).
Proof.
  intros Hstart Hne Hadj Hend. unfold process_match, add_hyperlink, add_run.
  destruct (Nat.ltb_spec pos (Re.m_start m)) as [Hlt|Hge]; simpl.
  - split; [|split].
    + rewrite !Forall_app. repeat split; [exact Hne | | ].
      * constructor; [|constructor]. intros [= Hs]. revert Hs.
        apply substring_some; lia.
      * constructor; [discriminate | constructor].
    + rewrite !no_adjacent_plain_snoc, Hadj. rewrite last_snoc. simpl.
      destruct (last (p_runs p)) as [r'|] eqn:Hr; [|reflexivity].
      now rewrite (Hend r' eq_refl).
    + intros r. rewrite last_snoc. now intros [= <-].
  - split; [|split].
    + rewrite Forall_app. split; [exact Hne|]. constructor; [discriminate | constructor].
    + rewrite no_adjacent_plain_snoc, Hadj. simpl.
      destruct (last (p_runs p)); [|reflexivity]. now rewrite andb_false_r.
    + intros r. rewrite last_snoc. now intros [= <-].
Qed.

Lemma process_matches_wf t ms : forall pos p,
  (forall m, m ∈ ms -> Re.m_start m <= String.length t) ->
  Forall (fun r => r <> Plain "") (p_runs p) ->
  no_adjacent_plain (p_runs p) = true ->
  (forall r, last (p_runs p) = Some r -> is_plain r = false) ->
  let p' := (fold_left (process_match t) ms (pos, p)).2 in
  Forall (fun r => r <> Plain "") (p_runs p') /\
  no_adjacent_plain (p_runs p') = true /\
  (forall r, last (p_runs p') = Some r -> is_plain r = false).
Proof.
  induction ms as [|m ms IH]; intros pos p Hstart Hne Hadj Hend; cbn [fold_left].
  - now repeat split.
  - destruct (process_match_runs t pos p m) as (Hne' & Hadj' & Hend'); auto.
    { apply Hstart. now left. }
    replace (process_match t (pos, p) m)
      with (Re.m_end m, (process_match t (pos, p) m).2)
      by (unfold process_match; reflexivity).
    apply IH; auto. intros m' Hm'. apply Hstart. now right.
Qed.

(** X1: the text of the runs of [process_text_with_hyperlinks] is the text
    with every anchor the hyperlink pattern finds replaced by its label, as
    [re.sub(pattern, r'\2', text)] gives it: outside the anchors no
    character is lost, added or moved. *)
Theorem runs_text_is_label_substitution (t : string) :
  Spec.runs_text (toRuns t) = Re.sub hyperlink_pattern (fun m => Re.group m 2) t.
Proof.
  unfold toRuns, process_text_with_hyperlinks, Re.sub.
  pose proof (process_matches_text t (Re.finditer hyperlink_pattern t) 0
                bullet_paragraph) as [H1 H2].
  simpl in H1, H2.
  destruct (fold_left (process_match t) _ _) as [last p].
  destruct (fold_left _ _ (0, "")) as [last' out]. simpl in *. subst last' out.
  destruct (Nat.ltb_spec last (String.length t)) as [Hlt|Hge].
  - unfold add_run. simpl. rewrite runs_text_app. simpl. now rewrite append_empty_r.
  - unfold Py.slice_from, Py.slice.
    replace (String.length t - last) with 0 by lia.
    now rewrite substring_none, append_empty_r.
Qed.

(** X2: [process_text_with_hyperlinks] never adds an empty plain run and
    never two plain runs in a row: the plain runs of a text are non-empty
    and any two of them have a hyperlink between them. *)
Theorem runs_well_formed (t : string) :
  Forall (fun r => r <> Plain "") (toRuns t) /\
  no_adjacent_plain (toRuns t) = true.
Proof.
  unfold toRuns, process_text_with_hyperlinks.
  pose proof (process_matches_wf t (Re.finditer hyperlink_pattern t) 0
                bullet_paragraph) as Hwf.
  destruct (fold_left (process_match t) _ _) as [pos p]. simpl in Hwf.
  destruct Hwf as (Hne & Hadj & Hend); auto.
  { intros m. apply finditer_starts. }
  { discriminate. }
  destruct (Nat.ltb_spec pos (String.length t)) as [Hlt|Hge]; [|now split].
  unfold add_run. simpl. split.
  - rewrite Forall_app. split; [exact Hne|]. constructor; [|constructor].
    intros [= Hs]. revert Hs. unfold Py.slice_from, Py.slice.
    apply substring_some; lia.
  - rewrite no_adjacent_plain_snoc, Hadj. simpl.
    destruct (last (p_runs p)) as [r'|] eqn:Hr; [|reflexivity].
    now rewrite (Hend r' eq_refl).
Qed.
End RunFacts.

(** ** The paragraphs of a cover letter *)

Section LetterFacts.
Import CoverLetter.

Lemma follows_sincerely_returns data lines l b st st' :
  follows_sincerely data lines l st = (inr b, st') ->
  st' = st /\
  (b = true ->
   exists n, lookup_key "name" data = Some n /\ l = n /\ follows_closing n lines).
Proof.
  unfold follows_sincerely, mbind, M_bind, bind, getitem, follows_closing.
  destruct (lookup_key "name" data) as [n|]; simpl; [|discriminate].
  destruct (String.eqb_spec l n) as [->|Hne].
  - destruct (Py.index n lines) as [i|] eqn:Hi; [|discriminate].
    destruct (Py.item_before lines i) as [prev|] eqn:Hprev.
    + intros [= <- <-]. split; [reflexivity|]. intros Heq.
      exists n. repeat split. exists i, prev. repeat split; auto.
      now apply String.eqb_eq.
    + intros [= <- <-]. split; [reflexivity | discriminate].
  - intros [= <- <-]. split; [reflexivity | discriminate].
Qed.

Lemma header_lines_returns data hl st st' :
  header_lines data st = (inr hl, st') -> st' = st.
Proof.
  unfold header_lines, mbind, M_bind, bind, getitem.
  repeat (match goal with
          | |- context [lookup_key ?k data] => destruct (lookup_key k data)
          end; simpl; [|discriminate]).
  now intros [= _ <-].
Qed.

(** A line of the letter that is rendered adds one finished paragraph when
    it is not blank, none when it is, and touches nothing else. *)
Lemma render_line_returns data lines line st st' :
  render_line data lines line st = (inr tt, st') ->
  exists bs,
    st' = set_doc (doc st ++ bs) st /\
    Forall2 letter_paragraph (List.filter Py.truthy [Py.strip line]) bs /\
    (forall b, b ∈ bs -> block_role b = Some SignatureName ->
       exists n, lookup_key "name" data = Some n /\ block_text b = n /\
                 follows_closing n lines).
Proof.
  unfold render_line, set_attribute. cbv zeta. set (l := Py.strip line). simpl.
  destruct (Py.truthy l) eqn:Ht; simpl.
  2:{ intros [= <-]. exists []. rewrite app_nil_r, set_doc_same.
      repeat split; [constructor | now intros b ?%elem_of_nil]. }
  destruct (String.eqb l "Dear Hiring Manager,").
  { intros [= <-]. exists [Para (normal l Salutation None None)].
    repeat split.
    - repeat constructor. now exists Salutation.
    - intros b ->%list_elem_of_singleton. discriminate. }
  destruct (String.eqb l "Sincerely,").
  { intros [= <-].
    exists [Para (normal l Closing None None)]. repeat split.
    - repeat constructor. now exists Closing.
    - intros b ->%list_elem_of_singleton. discriminate. }
  unfold mbind at 1, M_bind, bind.
  destruct (follows_sincerely data lines l st) as [[e|b] st1] eqn:Hf; [discriminate|].
  apply follows_sincerely_returns in Hf as [-> Hsig].
  destruct b.
  { intros [= <-]. exists [Para (normal l SignatureName None None)]. repeat split.
    - repeat constructor. now exists SignatureName.
    - intros b ->%list_elem_of_singleton _.
      destruct (Hsig eq_refl) as (n & Hn & -> & Hfc). exists n. repeat split; auto.
      simpl. apply append_empty_r. }
  unfold mbind, M_bind, bind, add_paragraph. simpl.
  destruct (header_lines data _) as [[e|hl] st1] eqn:Hh; [discriminate|].
  apply header_lines_returns in Hh as ->.
  destruct st as [d fs lg]. unfold set_doc. simpl.
  destruct (existsb (String.eqb l) hl); simpl; intros [= <-].
  - exists [Para (normal l HeaderLine None None)].
    split; [|split].
    + do 2 f_equal. rewrite <- (Nat.add_0_r (List.length d)).
      now rewrite alter_app_r.
    + repeat constructor. now exists HeaderLine.
    + intros b ->%list_elem_of_singleton. discriminate.
  - exists [Para (normal l Body None None)]. repeat split.
    + repeat constructor. now exists Body.
    + intros b ->%list_elem_of_singleton. discriminate.
Qed.

Lemma render_lines_return data lines ls : forall st st',
  for_each ls (render_line data lines) st = (inr tt, st') ->
  exists bs,
    st' = set_doc (doc st ++ bs) st /\
    Forall2 letter_paragraph (List.filter Py.truthy (map Py.strip ls)) bs /\
    (forall b, b ∈ bs -> block_role b = Some SignatureName ->
       exists n, lookup_key "name" data = Some n /\ block_text b = n /\
                 follows_closing n lines).
Proof.
  induction ls as [|line ls IH]; intros st st'; simpl.
  - intros [= <-]. exists []. rewrite app_nil_r, set_doc_same.
    repeat split; [constructor | now intros b ?%elem_of_nil].
  - unfold mbind, M_bind, bind.
    destruct (render_line data lines line st) as [[e|[]] st1] eqn:Hline; [discriminate|].
    apply render_line_returns in Hline as (bs1 & -> & Hp1 & Hs1).
    intros Hrest. apply IH in Hrest as (bs2 & -> & Hp2 & Hs2).
    exists (bs1 ++ bs2)%list. simpl. rewrite app_assoc. split; [reflexivity|]. split.
    + simpl in Hp1. destruct (Py.truthy (Py.strip line)).
      * inversion Hp1 as [|? ? ? ? Hb Hnil]; subst. inversion Hnil; subst.
        simpl. now constructor.
      * inversion Hp1; subst. exact Hp2.
    + intros b [Hb|Hb]%elem_of_app; [now apply Hs1 | now apply Hs2].
Qed.

Lemma cover_build_and_save_run data template out st :
  build_and_save data template out st =
  match for_each (Py.split nl (substitute data template))
          (render_line data (Py.split nl (substitute data template)))
          (set_doc [] st) with
  | (inl e, st1) => (inl e, st1)
  | (inr _, st1) =>
      (inr tt, State (doc st1) (<[out := doc st1]> (files st1))
                 (log st1 ++ [(INFO, ("Cover letter saved to " ++ out)%string)]))
  end.
Proof.
  unfold build_and_save, mbind, M_bind, bind, new_document, save, logger. cbv zeta.
  now destruct (for_each _ _ (set_doc [] st)) as [[e|[]] st1].
Qed.

Lemma create_cover_letter_returns data template out st :
  (create_cover_letter data template out st).1 = inr tt ->
  exists bs,
    doc (create_cover_letter data template out st).2 = bs /\
    Forall2 letter_paragraph (letter_lines data template) bs /\
    (forall b, b ∈ bs -> block_role b = Some SignatureName ->
       exists n, lookup_key "name" data = Some n /\ block_text b = n /\
                 follows_closing n (Py.split nl (substitute data template))).
Proof.
  unfold create_cover_letter, try_except. rewrite cover_build_and_save_run.
  destruct (for_each _ _ (set_doc [] st)) as [[e|[]] st1] eqn:Hloop; simpl.
  - discriminate.
  - intros _. apply render_lines_return in Hloop as (bs & -> & Hp & Hs).
    exists bs. simpl. repeat split; auto.
Qed.

(** X3: when [create_cover_letter] returns, the file it has written holds
    the document, and the document is exactly one paragraph per non-blank
    line of the substituted template, in order; each paragraph has style
    Normal, the stripped line as its single run and no spacing of its own
    (the assignments to [space_before] and [space_after] stay on the Python
    objects).  Blank lines give no paragraph and whatever the document held
    before is gone. *)
Theorem letter_is_one_paragraph_per_line data template out st :
  (create_cover_letter data template out st).1 = inr tt ->
  exists bs,
    files (create_cover_letter data template out st).2 !! out = Some bs /\
    doc (create_cover_letter data template out st).2 = bs /\
    Forall2 letter_paragraph (letter_lines data template) bs.
Proof.
  intros Hok. destruct (create_cover_letter_returns _ _ _ _ Hok) as (bs & Hdoc & Hp & _).
  exists bs. split; [|split; [exact Hdoc | exact Hp]].
  rewrite (saves_create_cover_letter data template out st Hok), lookup_insert_eq.
  now rewrite Hdoc.
Qed.

Lemma letter_is_one_paragraph_per_line_witness :
  exists bs,
    files (create_cover_letter
             (example_data "1 Main Street" "555-0100" "ann@example.com"
                "May 24, 2025" "Engineer" "Acme")
             example_template "cover_letter.docx" (State [] ∅ [])).2
      !! "cover_letter.docx" = Some bs /\
    doc (create_cover_letter
           (example_data "1 Main Street" "555-0100" "ann@example.com"
              "May 24, 2025" "Engineer" "Acme")
           example_template "cover_letter.docx" (State [] ∅ [])).2 = bs /\
    Forall2 letter_paragraph (letter_lines
           (example_data "1 Main Street" "555-0100" "ann@example.com"
              "May 24, 2025" "Engineer" "Acme") example_template) bs.
Proof.
  apply (letter_is_one_paragraph_per_line
           (example_data "1 Main Street" "555-0100" "ann@example.com"
              "May 24, 2025" "Engineer" "Acme")
           example_template "cover_letter.docx" (State [] ∅ [])).
  reflexivity.
Defined.

(** X4: a paragraph is formatted as the signature name only for a line
    equal to [data['name']] such that the line before the first line of the
    letter equal to the name strips to "Sincerely,": the test looks at the
    first occurrence of the name ([lines.index]), not at the line being
    rendered. *)
Theorem signature_needs_first_occurrence_after_closing data template out st b :
  (create_cover_letter data template out st).1 = inr tt ->
  b ∈ doc (create_cover_letter data template out st).2 ->
  block_role b = Some SignatureName ->
  exists n,
    lookup_key "name" data = Some n /\
    block_text b = n /\
    follows_closing n (Py.split nl (substitute data template)).
Proof.
  intros Hok Hin Hrole.
  destruct (create_cover_letter_returns _ _ _ _ Hok) as (bs & <- & _ & Hs).
  now apply Hs.
Qed.
End LetterFacts.

(** ** The exit status of the cover-letter program *)

Section MainFacts.
Import CoverLetter.










End MainFacts.

(** ** More on the resume renderer *)

Lemma kept_ret {A X} (proj : state -> X) (a : A) : keeps proj (ret a).
Proof. intros st. reflexivity. Qed.

Lemma kept_raise {A X} (proj : state -> X) e : keeps proj (@raise A e).
Proof. intros st. reflexivity. Qed.

Lemma kept_bind {A B X} (proj : state -> X) (m : M A) (f : A -> M B) :
  keeps proj m -> (forall a, keeps proj (f a)) -> keeps proj (m ≫= f).
Proof.
  intros Hm Hf st. unfold mbind, M_bind, bind. specialize (Hm st).
  destruct (m st) as [[e|a] st']; simpl in *; [exact Hm|].
  now rewrite (Hf a st').
Qed.

Lemma kept_getitem {A X} (proj : state -> X) (v : option A) key :
  keeps proj (getitem v key).
Proof. intros st. now destruct v. Qed.

Lemma kept_if {A X} (proj : state -> X) (b : bool) (m1 m2 : M A) :
  keeps proj m1 -> keeps proj m2 -> keeps proj (if b then m1 else m2).
Proof. now destruct b. Qed.

Lemma kept_for_each {A X} (proj : state -> X) (l : list A) (body : A -> M unit) :
  (forall x, keeps proj (body x)) -> keeps proj (for_each l body).
Proof.
  intros Hbody. induction l as [|x l IH]; simpl.
  - apply kept_ret.
  - apply kept_bind; [apply Hbody | intros _; exact IH].
Qed.

Lemma kept_sorted {A X} (proj : state -> X) key (l : list A) :
  keeps proj (sorted_by_id_reverse key l).
Proof.
  apply kept_bind; [|intros kl; apply kept_ret].
  induction l as [|x l IH]; simpl; [apply kept_ret|].
  apply kept_bind; [apply kept_getitem|]. intros k.
  apply kept_bind; [exact IH|]. intros r. apply kept_ret.
Qed.

Lemma log_add_heading t l : keeps log (add_heading t l).
Proof. intros st. reflexivity. Qed.

Lemma log_add_paragraph p : keeps log (add_paragraph p).
Proof. intros st. reflexivity. Qed.

Lemma log_update_paragraph h f : keeps log (update_paragraph h f).
Proof. intros st. reflexivity. Qed.

Lemma log_new_document : keeps log new_document.
Proof. intros st. reflexivity. Qed.

Ltac kept_log :=
  repeat first
    [ progress intros
    | progress cbv beta zeta
    | apply kept_getitem | apply kept_ret | apply kept_raise
    | apply log_add_heading | apply log_add_paragraph
    | apply log_update_paragraph | apply log_new_document
    | apply kept_sorted | apply kept_for_each
    | apply kept_if | apply kept_bind ].

Lemma logs_bind {A B} entry (m : M A) (f : A -> M B) :
  keeps log m -> (forall a, logs_on_success entry (f a)) ->
  logs_on_success entry (m ≫= f).
Proof.
  intros Hm Hf st. unfold mbind, M_bind, bind. specialize (Hm st).
  destruct (m st) as [[e|a] st'] eqn:Hrun; simpl in *.
  - now rewrite app_nil_r.
  - rewrite (Hf a st'). now rewrite Hm.
Qed.

Lemma logs_save_log out l msg : logs_on_success (l, msg) (save out ;; logger l msg).
Proof. intros st. reflexivity. Qed.

Lemma log_save out : keeps log (save out).
Proof. intros st. reflexivity. Qed.

Lemma logs_logger l msg : logs_on_success (l, msg) (logger l msg).
Proof. intros st. reflexivity. Qed.

(** One run, one log entry: INFO on return, ERROR with the exception's
    text when the exception is raised again. *)
Lemma logs_once {A} (m : M A) l msg (failed : string) st :
  logs_on_success (l, msg) m ->
  let res := try_except m (fun e => logger ERROR (failed ++ exn_str e) ;; raise e) st in
  res.1 = (m st).1 /\
  log res.2 =
    (log st ++ [match (m st).1 with
                | inr _ => (l, msg)
                | inl e => (ERROR, (failed ++ exn_str e)%string)
                end])%list.
Proof.
  intros Hm. cbv zeta. unfold try_except. specialize (Hm st).
  destruct (m st) as [[e|a] st']; simpl in *.
  - rewrite Hm, app_nil_r. now split.
  - now split.
Qed.

Section ResumeMore.
Import ResumeGen.

Lemma log_render_item item : keeps log (render_item item).
Proof. unfold render_item. kept_log. Qed.

Lemma log_render_datum datum : keeps log (render_datum datum).
Proof. unfold render_datum. kept_log. Qed.

Lemma logs_resume_build r out :
  logs_on_success (INFO, "Resume saved to " ++ out) (build_and_save r out).
Proof.
  unfold build_and_save.
  repeat (apply logs_bind; [solve [kept_log | apply log_save] | intros]).
  apply logs_logger.
Qed.

Lemma log_follows_sincerely data lines line :
  keeps log (CoverLetter.follows_sincerely data lines line).
Proof.
  unfold CoverLetter.follows_sincerely. apply kept_bind; [apply kept_getitem|].
  intros n. destruct (String.eqb line n); [|apply kept_ret].
  destruct (Py.index line lines) as [i|]; [|apply kept_raise].
  destruct (Py.item_before lines i); apply kept_ret.
Qed.

Lemma log_render_line data lines line :
  keeps log (CoverLetter.render_line data lines line).
Proof.
  unfold CoverLetter.render_line, set_attribute. cbv zeta.
  repeat (apply kept_if; [solve [kept_log]|]).
  apply kept_bind; [apply log_follows_sincerely|]. intros b.
  apply kept_if; [solve [kept_log]|].
  apply kept_bind; [apply log_add_paragraph|]. intros h.
  apply kept_bind; [unfold CoverLetter.header_lines; kept_log|]. intros hl.
  apply kept_if; kept_log.
Qed.

Lemma logs_cover_build data template out :
  logs_on_success (INFO, "Cover letter saved to " ++ out)
    (CoverLetter.build_and_save data template out).
Proof.
  unfold CoverLetter.build_and_save. cbv zeta.
  apply logs_bind; [apply log_new_document|]. intros _.
  apply logs_bind; [|intros _; apply logs_save_log].
  apply kept_for_each. intros line. apply log_render_line.
Qed.

(** X7: every run of [generate_resume] and of [create_cover_letter] adds
    exactly one entry to the log: the INFO entry with the output path when
    it returns, the ERROR entry with the text of the exception when it
    raises; nothing is logged while the document is built. *)
Theorem one_log_entry_per_run :
  (forall r out st,
     let res := generate_resume r out st in
     log res.2 =
       (log st ++ [match res.1 with
                   | inr _ => (INFO, ("Resume saved to " ++ out)%string)
                   | inl e => (ERROR, ("Failed to generate resume: " ++ exn_str e)%string)
                   end])%list) /\
  (forall data template out st,
     let res := CoverLetter.create_cover_letter data template out st in
     log res.2 =
       (log st ++ [match res.1 with
                   | inr _ => (INFO, ("Cover letter saved to " ++ out)%string)
                   | inl e => (ERROR, ("Failed to generate cover letter: "
                                       ++ exn_str e)%string)
                   end])%list).
Proof.
  split.
  - intros r out st. cbv zeta. unfold generate_resume.
    destruct (logs_once (build_and_save r out) INFO ("Resume saved to " ++ out)
                "Failed to generate resume: " st (logs_resume_build r out))
      as [Hres Hlog].
    rewrite Hlog, Hres. reflexivity.
  - intros data template out st. cbv zeta. unfold CoverLetter.create_cover_letter.
    destruct (logs_once (CoverLetter.build_and_save data template out) INFO
                ("Cover letter saved to " ++ out)
                "Failed to generate cover letter: " st
                (logs_cover_build data template out))
      as [Hres Hlog].
    rewrite Hlog, Hres. reflexivity.
Qed.

(** X8: a generator keeps its document between calls: a second
    [generate_resume] on the same generator renders after what the first
    one left, so the second file holds both resumes. *)
Theorem generator_accumulates (r1 r2 : Spec.Resume) (out1 out2 : string) (st : state) :
  let first := generate_resume (Spec.resume_dict r1) out1 (init st).2 in
  let second := generate_resume (Spec.resume_dict r2) out2 first.2 in
  second.1 = inr tt /\
  files first.2 !! out1 = Some (Spec.render r1) /\
  doc second.2 = (Spec.render r1 ++ Spec.render r2)%list /\
  files second.2 !! out2 = Some (Spec.render r1 ++ Spec.render r2)%list.
Proof.
  cbv zeta. rewrite !generate_resume_payload. simpl.
  rewrite !lookup_insert_eq. repeat split.
Qed.

Lemma keyed_missing {A} (key : A -> option Z) (l : list A) x st :
  x ∈ l -> key x = None -> keyed key l st = (inl (KeyError "id"), st).
Proof.
  intros Hin Hx. induction Hin as [x l | x y l Hin IH]; simpl.
  - unfold mbind, M_bind, bind. now rewrite Hx.
  - unfold mbind at 1, M_bind, bind, getitem.
    destruct (key y); simpl; [|reflexivity].
    unfold mbind, M_bind, bind. now rewrite IH.
Qed.

Lemma sorted_missing {A} (key : A -> option Z) (l : list A) x st :
  x ∈ l -> key x = None ->
  sorted_by_id_reverse key l st = (inl (KeyError "id"), st).
Proof.
  intros Hin Hx. unfold sorted_by_id_reverse.
  apply bind_raises. now apply (keyed_missing key l x).
Qed.

(** X9: the sort keys are read before anything is rendered.  When a
    section has no [id], [generate_resume] raises [KeyError('id')] with only
    the two header headings added and no section rendered; when an entry has
    no [id], its section raises with only the section heading added and no
    entry rendered.  Nothing is saved. *)
Theorem missing_id_stops_before_rendering :
  (forall r h n t ss s out st,
     header r = Some h -> name h = Some n -> header_title h = Some t ->
     contents r = Some ss -> s ∈ ss -> sect_id s = None ->
     generate_resume r out st
     = (inl (KeyError "id"),
        State (doc st ++ [Heading n 0; Heading t 3])%list (files st)
          (log st ++ [(ERROR, "Failed to generate resume: 'id'")])%list)) /\
  (forall s t es e st,
     title s = Some t -> content s = Some es -> e ∈ es -> entry_id e = None ->
     render_datum s st
     = (inl (KeyError "id"), set_doc (doc st ++ [Heading t 1]) st)).
Proof.
  split.
  - intros r h n t ss s out st Hh Hn Ht Hss Hs Hid.
    unfold generate_resume, try_except, build_and_save.
    unfold mbind, M_bind, bind, getitem, ret, add_heading.
    rewrite Hh, Hn, Ht, Hss. simpl.
    rewrite (sorted_missing sect_id ss s) by assumption.
    simpl. now rewrite <- app_assoc.
  - intros s t es e st Ht Hes He Hid. unfold render_datum.
    unfold mbind, M_bind, bind, getitem, ret, add_heading.
    rewrite Ht, Hes. simpl.
    now rewrite (sorted_missing entry_id es e) by assumption.
Qed.
End ResumeMore.

(** ** Placeholder substitution *)

Lemma replace_scan_without_dollar key value s :
  Py.contains "$" s = false ->
  Py.replace_scan (String "$" key) value s 0 = s.
Proof.
  induction s as [|c s IH]; [reflexivity|].
  cbn [Py.contains Py.startswith Py.replace_scan].
  destruct (Ascii.eqb "$" c); [discriminate|].
  intros Hs. now rewrite IH.
Qed.

(** X10: a template without the character [$] is left as it is by the
    substitution loop, whatever the keys and values of the dictionary (a
    value is never inserted where no placeholder stands). *)
Theorem template_without_dollar_unchanged (data : CoverLetter.dict) (template : string) :
  Py.contains "$" template = false ->
  CoverLetter.substitute data template = template.
Proof.
  intros Hno. unfold CoverLetter.substitute.
  induction data as [|[key value] data IH]; simpl; [reflexivity|].
  unfold Py.replace. simpl. rewrite replace_scan_without_dollar by exact Hno.
  exact IH.
Qed.

Lemma template_without_dollar_unchanged_witness :
  CoverLetter.substitute [("name", "Ann"); ("", "x")] "Dear Hiring Manager,"
  = "Dear Hiring Manager,".
Proof.
  apply (template_without_dollar_unchanged [("name", "Ann"); ("", "x")]
           "Dear Hiring Manager,").
  reflexivity.
Defined.

Lemma signature_needs_first_occurrence_after_closing_witness :
  let data := CoverLetter.example_data "1 Main Street" "555-0100" "ann@example.com"
                "May 24, 2025" "Engineer" "Acme" in
  let template := "Sincerely," ++ String CoverLetter.nl "$name" in
  exists n,
    CoverLetter.lookup_key "name" data = Some n /\
    block_text (Para (CoverLetter.normal "Ann" SignatureName None None)) = n /\
    follows_closing n (Py.split CoverLetter.nl (CoverLetter.substitute data template)).
Proof.
  cbv zeta.
  apply (signature_needs_first_occurrence_after_closing
           (CoverLetter.example_data "1 Main Street" "555-0100" "ann@example.com"
              "May 24, 2025" "Engineer" "Acme")
           ("Sincerely," ++ String CoverLetter.nl "$name")
           "cover_letter.docx" (State [] ∅ [])).
  - reflexivity.
  - vm_compute. apply list_elem_of_further, list_elem_of_here.
  - reflexivity.
Defined.

Lemma missing_id_stops_before_rendering_witness :
  ResumeGen.generate_resume
    (ResumeGen.Build_Resume
       (Some (ResumeGen.Build_Header (Some "N") (Some "T")))
       (Some [ResumeGen.Build_Sect (Some 1%Z) (Some "A") (Some []);
              ResumeGen.Build_Sect None (Some "B") (Some [])]))
    "output.docx" (State [] ∅ [])
  = (inl (KeyError "id"),
     State [Heading "N" 0; Heading "T" 3] ∅
       [(ERROR, "Failed to generate resume: 'id'")]).
Proof.
  apply (proj1 missing_id_stops_before_rendering
           _ (ResumeGen.Build_Header (Some "N") (Some "T")) "N" "T"
           [ResumeGen.Build_Sect (Some 1%Z) (Some "A") (Some []);
            ResumeGen.Build_Sect None (Some "B") (Some [])]
           (ResumeGen.Build_Sect None (Some "B") (Some [])));
    try reflexivity.
  apply list_elem_of_further, list_elem_of_here.
Defined.

(** ** An anchor is read back as it was written *)

Lemma substring_prefix (a b : string) : substring 0 (String.length a) (a ++ b) = a.
Proof. induction a as [|c a IH]; simpl; [apply substring_none | now rewrite IH]. Qed.

Lemma substring_skip (a b : string) (n : nat) :
  substring (String.length a) n (a ++ b) = substring 0 n b.
Proof. induction a as [|c a IH]; simpl; [reflexivity | exact IH]. Qed.

Lemma length_append (a b : string) :
  String.length (a ++ b) = String.length a + String.length b.
Proof. induction a as [|c a IH]; simpl; [reflexivity | now rewrite IH]. Qed.

Section RoundTrip.
Import Re ResumeGen.
Context {R : Type}.
Implicit Types (k : string -> nat -> list string -> option R)
               (kp : string -> nat -> option R).

Lemma exec_cat_cons r r' rs s i g k :
  exec (cat (r :: r' :: rs)) s i g k
  = exec r s i g (fun s' i' g' => exec (cat (r' :: rs)) s' i' g' k).
Proof. reflexivity. Qed.

Lemma exec_lit w : forall s i g k,
  exec (lit w) (w ++ s) i g k = k s (i + String.length w) g.
Proof.
  induction w as [|c w IH]; intros s i g k.
  - cbn [lit exec String.length]. rewrite Nat.add_0_r. change ("" ++ s) with s.
    destruct s as [|c' s]; reflexivity.
  - destruct w as [|c' w].
    + cbn [lit exec String.length]. change (String c "" ++ s) with (String c s).
      cbn [exec]. rewrite Ascii.eqb_refl. f_equal. lia.
    + change (lit (String c (String c' w))) with (Cat (Lit c) (lit (String c' w))).
      change (String c (String c' w) ++ s) with (String c (String c' w ++ s)).
      cbn [exec]. rewrite Ascii.eqb_refl, IH. cbn [String.length]. f_equal. lia.
Qed.

Lemma exec_lit_mismatch c w c' s i g k :
  Ascii.eqb c c' = false -> exec (lit (String c w)) (String c' s) i g k = None.
Proof. intros Hne. destruct w; cbn [lit exec]; now rewrite Hne. Qed.

Lemma greedy_stop (p : ascii -> bool) c s i kp :
  p c = false -> many_greedy p (String c s) i kp = kp (String c s) i.
Proof. intros Hp. cbn [many_greedy]. now rewrite Hp. Qed.

(** A greedy run takes the longest stretch when the rest matches there. *)
Lemma greedy_longest (p : ascii -> bool) w : forall c s i kp x,
  all_chars p w = true -> p c = false ->
  kp (String c s) (i + String.length w) = Some x ->
  many_greedy p (w ++ String c s) i kp = Some x.
Proof.
  induction w as [|c' w IH]; intros c s i kp x Hw Hc Hk.
  - cbn [String.length] in Hk. rewrite Nat.add_0_r in Hk.
    change ("" ++ String c s) with (String c s). now rewrite greedy_stop.
  - cbn [all_chars] in Hw. apply andb_prop in Hw as [Hc' Hw].
    change (String c' w ++ String c s) with (String c' (w ++ String c s)).
    cbn [many_greedy]. rewrite Hc'.
    rewrite (IH c s (S i) kp x); auto.
    cbn [String.length] in Hk. now replace (S i + String.length w)
      with (i + S (String.length w)) by lia.
Qed.

(** A lazy run passes over the characters on which the rest cannot start. *)
Lemma lazy_skip (p good : ascii -> bool) kp w : forall s i,
  all_chars (fun c => p c && good c) w = true ->
  (forall c s' j, good c = true -> kp (String c s') j = None) ->
  many_lazy p (w ++ s) i kp = many_lazy p s (i + String.length w) kp.
Proof.
  induction w as [|c w IH]; intros s i Hw Hk.
  - cbn [String.length]. now rewrite Nat.add_0_r.
  - cbn [all_chars] in Hw. apply andb_prop in Hw as [Hc Hw].
    apply andb_prop in Hc as [Hp Hg].
    change (String c w ++ s) with (String c (w ++ s)).
    cbn [many_lazy]. rewrite (Hk c _ i Hg), Hp, IH by auto.
    cbn [String.length]. f_equal. lia.
Qed.

Lemma lazy_stop (p : ascii -> bool) s i kp x :
  kp s i = Some x -> many_lazy p s i kp = Some x.
Proof. intros Hk. destruct s; cbn [many_lazy]; now rewrite Hk. Qed.
End RoundTrip.

Lemma quote_cases q : Re.quote q = true -> q = "'"%char \/ q = Re.dquote.
Proof.
  unfold Re.quote. intros [H|H]%orb_prop; apply Ascii.eqb_eq in H; auto.
Qed.

Lemma quote_not_gt q : Re.quote q = true -> Re.not_gt q = true.
Proof. intros [-> | ->]%quote_cases; reflexivity. Qed.

Lemma eqb_quote c q : Re.quote q = true -> Re.quote c = false -> Ascii.eqb c q = false.
Proof.
  intros Hq Hc. destruct (Ascii.eqb_spec c q) as [->|]; [congruence | reflexivity].
Qed.

Lemma url_char_inv c :
  url_char c = true -> Re.quote c = false /\ Re.dot c = true /\ Re.not_gt c = true.
Proof.
  unfold url_char. intros [[H1 H2]%andb_prop H3]%andb_prop.
  apply negb_true_iff in H1. auto.
Qed.

Lemma all_chars_impl (p p' : ascii -> bool) s :
  (forall c, p c = true -> p' c = true) -> all_chars p s = true -> all_chars p' s = true.
Proof.
  intros Himpl. induction s as [|c s IH]; cbn [all_chars]; [reflexivity|].
  intros [Hc Hs]%andb_prop. rewrite (Himpl c Hc). now apply IH.
Qed.

Section AnchorMatch.
Import Re ResumeGen.
Context {R : Type}.
Implicit Types (k : string -> nat -> list string -> option R).

Lemma greedy_step (p : ascii -> bool) c s i (kp : string -> nat -> option R) :
  p c = true ->
  many_greedy p (String c s) i kp =
  match many_greedy p s (S i) kp with Some r => Some r | None => kp (String c s) i end.
Proof. intros Hp. cbn [many_greedy]. now rewrite Hp. Qed.

(** Where no [href=] followed by a quote stands, the attribute part of the
    hyperlink pattern cannot start. *)
Lemma href_fails q w s r' rs i g k :
  quote q = true -> all_chars url_char w = true -> String.eqb "href=" w = false ->
  exec (cat (lit "href=" :: Class quote :: r' :: rs)) (w ++ String q s) i g k = None.
Proof.
  intros Hq Hw Hne. rewrite exec_cat_cons.
  change (lit "href=")
    with (Cat (Lit "h") (Cat (Lit "r") (Cat (Lit "e") (Cat (Lit "f") (Lit "="))))).
  cbn [exec].
  do 5 (destruct w as [|c w];
        [ change ("" ++ String q s) with (String q s); cbv beta iota;
          rewrite ?(eqb_quote _ q Hq) by reflexivity; reflexivity
        | cbn [all_chars] in Hw; apply andb_prop in Hw as [_ Hw];
          change (String c w ++ String q s) with (String c (w ++ String q s));
          cbv beta iota;
          match goal with
          | |- (if Ascii.eqb ?x c then _ else _) = _ =>
              destruct (Ascii.eqb_spec x c) as [<-|]; [|reflexivity]
          end ]).
  destruct w as [|c w]; [discriminate Hne|].
  cbn [all_chars] in Hw. apply andb_prop in Hw as [Hc _].
  apply url_char_inv in Hc as [Hc _].
  change (String c w ++ String q s) with (String c (w ++ String q s)).
  rewrite exec_cat_cons. cbn [exec]. now rewrite Hc.
Qed.

(** Backtracking over the URL and its closing quote finds no other place
    for [href=]. *)
Lemma attrs_none q s r' rs g k w : forall i,
  quote q = true -> all_chars url_char w = true -> ends_with "href=" w = false ->
  many_greedy not_gt (w ++ String q (String ">" s)) i
    (fun s' i' => exec (cat (lit "href=" :: Class quote :: r' :: rs)) s' i' g k)
  = None.
Proof.
  induction w as [|c w IH]; intros i Hq Hw Hend.
  - change ("" ++ String q (String ">" s)) with (String q (String ">" s)).
    rewrite greedy_step by now apply quote_not_gt.
    rewrite greedy_stop by reflexivity.
    rewrite !exec_cat_cons, !exec_lit_mismatch; [reflexivity | | reflexivity].
    now apply eqb_quote.
  - cbn [all_chars] in Hw. apply andb_prop in Hw as [Hc Hw].
    cbn [ends_with] in Hend. apply orb_false_elim in Hend as [Hne Hend].
    change (String c w ++ String q (String ">" s))
      with (String c (w ++ String q (String ">" s))).
    rewrite greedy_step by now apply url_char_inv in Hc.
    rewrite IH by assumption.
    change (String c (w ++ String q (String ">" s)))
      with (String c w ++ String q (String ">" s)).
    apply href_fails; auto. cbn [all_chars]. now rewrite Hc.
Qed.
Lemma greedy_none_step (p : ascii -> bool) c s i (kp : string -> nat -> option R) :
  p c = true -> many_greedy p s (S i) kp = None -> kp (String c s) i = None ->
  many_greedy p (String c s) i kp = None.
Proof. intros Hp Hin Hk. rewrite greedy_step by exact Hp. now rewrite Hin. Qed.

(** The greedy attribute part before [href=] ends up empty. *)
Lemma attrs_backtrack q u s r' rs i g k :
  quote q = true -> all_chars url_char u = true -> ends_with "href=" u = false ->
  many_greedy not_gt ("href=" ++ String q (u ++ String q (String ">" s))) i
    (fun s' i' => exec (cat (lit "href=" :: Class quote :: r' :: rs)) s' i' g k)
  = exec (cat (lit "href=" :: Class quote :: r' :: rs))
      ("href=" ++ String q (u ++ String q (String ">" s))) i g k.
Proof.
  intros Hq Hu Hend.
  change ("href=" ++ String q (u ++ String q (String ">" s)))
    with (String "h" (String "r" (String "e" (String "f" (String "="
            (String q (u ++ String q (String ">" s)))))))).
  rewrite greedy_step by reflexivity.
  rewrite greedy_none_step; [reflexivity | reflexivity | |].
  2:{ now rewrite exec_cat_cons, exec_lit_mismatch. }
  do 3 (apply greedy_none_step;
        [reflexivity | | now rewrite exec_cat_cons, exec_lit_mismatch]).
  apply greedy_none_step.
  - now apply quote_not_gt.
  - now apply attrs_none.
  - rewrite exec_cat_cons, exec_lit_mismatch; [reflexivity|]. now apply eqb_quote.
Qed.
End AnchorMatch.

Section AnchorText.
Import Re ResumeGen.

Lemma anchor_app q u l post :
  anchor q u l ++ post
  = "<a" ++ String " " ("href=" ++ String q (u ++ String q
        (String ">" (l ++ ("</a>" ++ post))))).
Proof.
  unfold anchor. simpl. rewrite !append_assoc. simpl. rewrite !append_assoc.
  reflexivity.
Qed.

Lemma match_at_anchor q u l post i :
  quote q = true -> all_chars url_char u = true -> ends_with "href=" u = false ->
  all_chars label_char l = true ->
  match_at hyperlink_pattern (anchor q u l ++ post) i
  = Some (Match i (i + String.length (anchor q u l)) [u; l]).
Proof.
  intros Hq Hu Hend Hl. unfold match_at, hyperlink_pattern. rewrite anchor_app.
  rewrite exec_cat_cons, exec_lit.
  rewrite exec_cat_cons. unfold plus. cbn [exec].
  change (Py.isspace " ") with true. cbv iota.
  change ("href=" ++ String q (u ++ String q (String ">" (l ++ ("</a>" ++ post)))))
    with (String "h" ("ref=" ++ String q (u ++ String q (String ">" (l ++ ("</a>" ++ post)))))) at 1.
  rewrite greedy_stop by reflexivity. 
  rewrite exec_cat_cons. cbn [exec].
  change (String "h" ("ref=" ++ String q (u ++ String q (String ">" (l ++ ("</a>" ++ post))))))
    with ("href=" ++ String q (u ++ String q (String ">" (l ++ ("</a>" ++ post))))).
  rewrite attrs_backtrack by assumption.
  rewrite exec_cat_cons, exec_lit.
  rewrite exec_cat_cons. cbn [exec]. rewrite Hq.
  rewrite exec_cat_cons. cbn [exec].
  rewrite (lazy_skip dot (fun c => negb (quote c))).
  2:{ revert Hu. apply all_chars_impl. intros c Hc.
      apply url_char_inv in Hc as (Hc1 & Hc2 & _). now rewrite Hc1, Hc2. }
  2:{ intros c s' j Hc. apply negb_true_iff in Hc.
      rewrite exec_cat_cons. cbn [exec]. now rewrite Hc. }
  apply lazy_stop.
  rewrite exec_cat_cons. cbn [exec]. rewrite Hq.
  rewrite exec_cat_cons. cbn [exec]. rewrite greedy_stop by reflexivity.
  change (String ">" (l ++ ("</a>" ++ post))) with (">" ++ (l ++ ("</a>" ++ post))).
  rewrite exec_cat_cons, exec_lit.
  rewrite exec_cat_cons. cbn [exec].
  rewrite (lazy_skip dot (fun c => negb (Ascii.eqb "<" c))).
  2:{ revert Hl. apply all_chars_impl. intros c Hc. exact Hc. }
  2:{ intros c s' j Hc. apply negb_true_iff in Hc.
      change (cat [lit "</a>"]) with (lit "</a>"). now apply exec_lit_mismatch. }
  apply lazy_stop. change (cat [lit "</a>"]) with (lit "</a>").
  rewrite exec_lit. f_equal. f_equal.
  - unfold anchor. rewrite !length_append. simpl. rewrite !length_append. simpl.
    rewrite !length_append. simpl. lia.
  - simpl. f_equal; [|f_equal].
    + match goal with |- substring 0 ?n _ = _ =>
        replace n with (String.length u) by lia end.
      apply substring_prefix.
    + match goal with |- substring 0 ?n _ = _ =>
        replace n with (String.length l) by lia end.
      apply substring_prefix.
Qed.
Lemma all_chars_app p a b :
  all_chars p (a ++ b) = all_chars p a && all_chars p b.
Proof.
  induction a as [|c a IH]; simpl; [reflexivity|]. now rewrite IH, andb_assoc.
Qed.

Lemma match_at_anchor_tag q u l post i :
  quote q = true -> all_chars url_char u = true -> all_chars label_char l = true ->
  match_at tag_pattern (anchor q u l ++ post) i
  = Some (Match i (i + String.length (anchor q u l)) [l]).
Proof.
  intros Hq Hu Hl. unfold match_at, tag_pattern. rewrite anchor_app.
  rewrite exec_cat_cons, exec_lit.
  rewrite exec_cat_cons. unfold plus. cbn [exec].
  change (Py.isspace " ") with true. cbv iota.
  change ("href=" ++ String q (u ++ String q (String ">" (l ++ ("</a>" ++ post)))))
    with (String "h" ("ref=" ++ String q (u ++ String q (String ">" (l ++ ("</a>" ++ post)))))) at 1.
  rewrite greedy_stop by reflexivity.
  rewrite exec_cat_cons. cbn [exec].
  replace (String "h" ("ref=" ++ String q (u ++ String q (String ">" (l ++ ("</a>" ++ post))))))
    with (("href=" ++ String q (u ++ String q "")) ++ String ">" (l ++ ("</a>" ++ post)))
    by (simpl; now rewrite append_assoc).
  apply greedy_longest; [|reflexivity|].
  { simpl. rewrite all_chars_app. simpl. rewrite (quote_not_gt q Hq), andb_true_r.
    revert Hu. apply all_chars_impl. intros c Hc. now apply url_char_inv in Hc. }
  change (String ">" (l ++ ("</a>" ++ post))) with (">" ++ (l ++ ("</a>" ++ post))).
  rewrite exec_cat_cons, exec_lit.
  rewrite exec_cat_cons. cbn [exec].
  rewrite (lazy_skip dot (fun c => negb (Ascii.eqb "<" c))).
  2:{ revert Hl. apply all_chars_impl. intros c Hc. exact Hc. }
  2:{ intros c s' j Hc. apply negb_true_iff in Hc.
      change (cat [lit "</a>"]) with (lit "</a>"). now apply exec_lit_mismatch. }
  apply lazy_stop. change (cat [lit "</a>"]) with (lit "</a>").
  rewrite exec_lit. f_equal. f_equal.
  - unfold anchor. rewrite !length_append. simpl. rewrite !length_append. simpl.
    rewrite !length_append. simpl. lia.
  - simpl. f_equal.
    match goal with |- substring 0 ?n _ = _ =>
      replace n with (String.length l) by lia end.
    apply substring_prefix.
Qed.

(** Both patterns start with the literal [<a], so no match starts on
    another character, nor at the end of the text. *)
Lemma match_at_plain w r' rs c s i :
  Ascii.eqb "<" c = false ->
  match_at (cat (lit (String "<" w) :: r' :: rs)) (String c s) i = None.
Proof.
  intros Hc. unfold match_at. rewrite exec_cat_cons. now apply exec_lit_mismatch.
Qed.

Lemma match_at_end w r' rs i :
  match_at (cat (lit (String "<" w) :: r' :: rs)) "" i = None.
Proof. unfold match_at. rewrite exec_cat_cons. now destruct w. Qed.

Lemma scan_plain w r' rs s : forall i,
  all_chars plain_char s = true ->
  scan (cat (lit (String "<" w) :: r' :: rs)) s i 0 = [].
Proof.
  induction s as [|c s IH]; intros i Hs; cbn [scan].
  - now rewrite match_at_end.
  - cbn [all_chars] in Hs. apply andb_prop in Hs as [Hc Hs].
    apply negb_true_iff in Hc. rewrite match_at_plain by exact Hc. now apply IH.
Qed.

Lemma scan_pre w r' rs pre s : forall i,
  all_chars plain_char pre = true ->
  scan (cat (lit (String "<" w) :: r' :: rs)) (pre ++ s) i 0
  = scan (cat (lit (String "<" w) :: r' :: rs)) s (i + String.length pre) 0.
Proof.
  induction pre as [|c pre IH]; intros i Hpre.
  - cbn [String.length]. now rewrite Nat.add_0_r.
  - cbn [all_chars] in Hpre. apply andb_prop in Hpre as [Hc Hpre].
    apply negb_true_iff in Hc.
    change (String c pre ++ s) with (String c (pre ++ s)). cbn [scan].
    rewrite match_at_plain by exact Hc. rewrite IH by exact Hpre.
    cbn [String.length]. f_equal. lia.
Qed.

Lemma scan_skip r a s : forall i n,
  scan r (a ++ s) i (String.length a + n) = scan r s (i + String.length a) n.
Proof.
  induction a as [|c a IH]; intros i n.
  - cbn [String.length]. now rewrite Nat.add_0_r.
  - change (String c a ++ s) with (String c (a ++ s)). cbn [scan String.length].
    cbn [Nat.add]. rewrite IH. f_equal. lia.
Qed.

(** The one match in a text that holds one anchor between two stretches
    without [<]. *)
Lemma scan_one_anchor w r' rs q u l pre post gs :
  (forall i, match_at (cat (lit (String "<" w) :: r' :: rs)) (anchor q u l ++ post) i
             = Some (Match i (i + String.length (anchor q u l)) gs)) ->
  all_chars plain_char pre = true -> all_chars plain_char post = true ->
  finditer (cat (lit (String "<" w) :: r' :: rs)) (pre ++ anchor q u l ++ post)
  = [Match (String.length pre)
       (String.length pre + String.length (anchor q u l)) gs].
Proof.
  intros Hm Hpre Hpost. unfold finditer. rewrite scan_pre by exact Hpre.
  cbn [Nat.add]. specialize (Hm (String.length pre)).
  remember (anchor q u l) as a eqn:Ha.
  assert (Hcons : exists a', a = String "<" a')
    by (subst a; unfold anchor; simpl; eauto).
  destruct Hcons as [a' ->].
  change (String "<" a' ++ post) with (String "<" (a' ++ post)) in *.
  cbn [scan]. rewrite Hm. f_equal. cbn [m_end String.length].
  replace (String.length pre + S (String.length a') - String.length pre - 1)
    with (String.length a' + 0) by lia.
  rewrite scan_skip. now apply scan_plain.
Qed.

(** X11: an anchor written as [<a href=QurlQ>label</a>] (either quote, the
    same on both sides) between two stretches of text without [<] is read
    back exactly: the runs are the text before, the hyperlink with that
    label and URL, the text after (a stretch that is empty gives no run),
    and the stripped text is the text before, the label, the text after.
    The URL must hold no quote, newline or [>] and must not end with
    [href=]; the label must hold no newline and no [<]. *)
Theorem anchor_round_trip (q : ascii) (url label pre post : string) :
  quote q = true ->
  all_chars url_char url = true -> ends_with "href=" url = false ->
  all_chars label_char label = true ->
  all_chars plain_char pre = true -> all_chars plain_char post = true ->
  toRuns (pre ++ anchor q url label ++ post)
    = (plain_run pre ++ [Hyperlink label url] ++ plain_run post)%list /\
  stripToPlainText (pre ++ anchor q url label ++ post) = pre ++ label ++ post.
Proof.
  intros Hq Hu Hend Hl Hpre Hpost.
  assert (Hlen : String.length (pre ++ anchor q url label ++ post)
                 = String.length pre + String.length (anchor q url label)
                   + String.length post)
    by (rewrite !length_append; lia).
  assert (Hhead : substring 0 (String.length pre - 0)
                    (pre ++ anchor q url label ++ post) = pre).
  { rewrite Nat.sub_0_r. apply substring_prefix. }
  assert (Htail : Py.slice_from (pre ++ anchor q url label ++ post)
                    (String.length pre + String.length (anchor q url label)) = post).
  { unfold Py.slice_from, Py.slice. rewrite Hlen.
    rewrite <- append_assoc, <- length_append, substring_skip.
    match goal with |- substring 0 ?n _ = _ =>
      replace n with (String.length post) by (rewrite length_append; lia) end.
    apply substring_all. }
  assert (Hbefore : (0 <? String.length pre) = Py.truthy pre)
    by now destruct pre.
  assert (Hafter : (String.length pre + String.length (anchor q url label)
                    <? String.length pre + String.length (anchor q url label)
                       + String.length post) = Py.truthy post).
  { destruct post; cbn [String.length Py.truthy];
      [apply Nat.ltb_ge | apply Nat.ltb_lt]; lia. }
  split.
  - unfold toRuns, process_text_with_hyperlinks, hyperlink_pattern.
    rewrite (scan_one_anchor _ _ _ q url label pre post [url; label]); auto.
    2:{ intros i. now apply match_at_anchor. }
    cbn [fold_left process_match m_start m_end]. unfold add_hyperlink, group.
    cbn [m_groups nth Nat.sub].
    fold hyperlink_pattern. rewrite Hlen, Hafter, Hbefore, Htail.
    unfold plain_run, Py.slice. rewrite Hhead.
    now destruct (Py.truthy pre), (Py.truthy post).
  - unfold stripToPlainText, remove_hyperlink, sub, tag_pattern.
    rewrite (scan_one_anchor _ _ _ q url label pre post [label]); auto.
    2:{ intros i. now apply match_at_anchor_tag. }
    cbn [fold_left m_start m_end]. unfold group. cbn [m_groups nth Nat.sub].
    rewrite Htail. unfold Py.slice. rewrite Hhead.
    change ("" ++ pre ++ label) with (pre ++ label). now rewrite append_assoc.
Qed.
End AnchorText.

Lemma anchor_round_trip_witness :
  ResumeGen.toRuns
    ("Test item with " ++ anchor "'" "https://test.com/?a=b" "Test Link" ++ ".")
    = [Plain "Test item with "; Hyperlink "Test Link" "https://test.com/?a=b";
       Plain "."] /\
  ResumeGen.stripToPlainText
    ("Test item with " ++ anchor "'" "https://test.com/?a=b" "Test Link" ++ ".")
    = "Test item with " ++ "Test Link" ++ ".".
Proof.
  apply (anchor_round_trip "'" "https://test.com/?a=b" "Test Link"
           "Test item with " "."); reflexivity.
Defined.

(** ** The styles and margins of a new generator *)

Section StyleFacts.
Import Styles.
Context {num length : Type} (Pt Cm : num -> length) `{!Stored length}.

Lemma style_step_complete (config : Config) n s d style_name f :
  font config = Some {| name := Some n; size := Some s |} ->
  styles d !! style_name = Some f ->
  style_step Pt config d style_name
  = (None, {| styles := <[style_name := {| font_name := Some n;
                                           font_size := Some (half_points (Pt s)) |}]> (styles d);
              sections := sections d |}).
Proof.
  intros Hf Hs. unfold style_step, lookup2. rewrite Hs, Hf. simpl.
  do 2 f_equal. apply map_eq. intros k.
  destruct (decide (style_name = k)) as [<-|Hne].
  - rewrite lookup_insert_eq, !lookup_alter_eq, Hs. reflexivity.
  - now rewrite lookup_insert_ne, !lookup_alter_ne by exact Hne.
Qed.

Lemma for_styles_complete (config : Config) n s names : forall d,
  font config = Some {| name := Some n; size := Some s |} ->
  (forall k, k ∈ names -> is_Some (styles d !! k)) ->
  exists d',
    for_styles Pt config names d = (None, d') /\
    sections d' = sections d /\
    forall k, styles d' !! k =
              if bool_decide (k ∈ names)
              then Some {| font_name := Some n; font_size := Some (half_points (Pt s)) |}
              else styles d !! k.
Proof.
  induction names as [|x names IH]; intros d Hc Hex; simpl.
  - exists d. split; [reflexivity|]. split; [reflexivity|].
    intros k. destruct (bool_decide_reflect (k ∈ @nil string)) as [Hin|_];
      [now apply elem_of_nil in Hin | reflexivity].
  - destruct (Hex x) as [f Hf]; [set_solver|].
    rewrite (style_step_complete config n s d x f) by assumption.
    destruct (IH {| styles := <[x := {| font_name := Some n;
                                       font_size := Some (half_points (Pt s)) |}]> (styles d);
                    sections := sections d |} Hc) as (d' & Hrun & Hsec & Hst).
    { intros k Hk. simpl. destruct (decide (x = k)) as [<-|Hne].
      - rewrite lookup_insert_eq. eauto.
      - rewrite lookup_insert_ne by exact Hne. apply Hex. set_solver. }
    exists d'. split; [exact Hrun|]. split; [exact Hsec|].
    intros k. rewrite Hst. simpl.
    destruct (decide (k ∈ names)) as [Hin|Hnin].
    + rewrite !bool_decide_eq_true_2 by set_solver. reflexivity.
    + rewrite (bool_decide_eq_false_2 (k ∈ names)) by exact Hnin.
      destruct (decide (x = k)) as [<-|Hne].
      * rewrite lookup_insert_eq, bool_decide_eq_true_2 by set_solver. reflexivity.
      * rewrite lookup_insert_ne by exact Hne.
        rewrite bool_decide_eq_false_2; [reflexivity|].
        intros [->|Hin]%elem_of_cons; [now apply Hne | now apply Hnin].
Qed.

Lemma for_sections_complete (config : Config) t b l r secs :
  margins config = Some {| top := Some t; bottom := Some b;
                           left := Some l; right := Some r |} ->
  for_sections Cm config secs
  = (None, map (fun _ => {| top_margin := Some (twips (Cm t)); bottom_margin := Some (twips (Cm b));
                            left_margin := Some (twips (Cm l)); right_margin := Some (twips (Cm r)) |})
               secs).
Proof.
  intros Hm. induction secs as [|x secs IH]; simpl; [reflexivity|].
  unfold section_step, lookup2. rewrite Hm. simpl. now rewrite IH.
Qed.

Lemma style_step_returns (config : Config) d x d' :
  style_step Pt config d x = (None, d') ->
  is_Some (styles d !! x) /\
  (exists n s, font config = Some {| name := Some n; size := Some s |}) /\
  sections d' = sections d /\
  forall k, is_Some (styles d' !! k) <-> is_Some (styles d !! k).
Proof.
  unfold style_step, lookup2.
  destruct (styles d !! x) as [f|] eqn:Hx; [|discriminate].
  destruct (font config) as [[[n|] [s|]]|]; try discriminate.
  intros [= <-]. simpl. split; [eauto|]. split; [eauto|]. split; [reflexivity|].
  intros k. destruct (decide (x = k)) as [<-|Hne].
  - rewrite !lookup_alter_eq, Hx. simpl. split; eauto.
  - now rewrite !lookup_alter_ne by exact Hne.
Qed.

Lemma for_styles_returns (config : Config) names : forall d d',
  for_styles Pt config names d = (None, d') ->
  (forall k, k ∈ names -> is_Some (styles d !! k)) /\
  (names <> [] -> exists n s, font config = Some {| name := Some n; size := Some s |}) /\
  sections d' = sections d.
Proof.
  induction names as [|x names IH]; intros d d'; simpl.
  - intros [= <-]. split; [intros k Hk; now apply elem_of_nil in Hk|].
    split; [congruence | reflexivity].
  - destruct (style_step Pt config d x) as [[e|] d1] eqn:Hstep; [discriminate|].
    intros Hrun. apply style_step_returns in Hstep as (Hx & Hfont & Hsec & Hdom).
    apply IH in Hrun as (Hall & _ & Hsec').
    split; [|split; [intros _; exact Hfont | congruence]].
    intros k [->|Hin]%elem_of_cons; [exact Hx|]. apply Hdom, Hall, Hin.
Qed.

Lemma for_sections_returns (config : Config) secs secs' :
  for_sections Cm config secs = (None, secs') ->
  secs = [] \/
  exists t b l r, margins config = Some {| top := Some t; bottom := Some b;
                                           left := Some l; right := Some r |}.
Proof.
  destruct secs as [|x secs]; [now left|]. simpl. intros H. right.
  unfold section_step, lookup2 in H.
  destruct (margins config) as [[[t|] [b|] [l|] [r|]]|]; try discriminate.
  now exists t, b, l, r.
Qed.

(** X12: with a configuration that has every key and a document that has
    the four styles, [_apply_document_styles] returns; afterwards each of
    Normal, Heading 1, Heading 2 and Heading 3 has the configured font name
    and the configured size as the document keeps it (in half points),
    every other style is as before, and every section has the four
    configured margins as the document keeps them (in twentieths of a
    point). *)
Theorem apply_document_styles_effect (config : Config) (d : document) n s t b l r :
  complete config n s t b l r ->
  (forall k, k ∈ styled_names -> is_Some (styles d !! k)) ->
  exists d',
    _apply_document_styles Pt Cm config d = (None, d') /\
    (forall k, styles d' !! k =
               if bool_decide (k ∈ styled_names)
               then Some {| font_name := Some n; font_size := Some (half_points (Pt s)) |}
               else styles d !! k) /\
    sections d' =
      map (fun _ => {| top_margin := Some (twips (Cm t)); bottom_margin := Some (twips (Cm b));
                       left_margin := Some (twips (Cm l)); right_margin := Some (twips (Cm r)) |})
          (sections d).
Proof.
  intros [Hf Hm] Hex. unfold _apply_document_styles.
  destruct (for_styles_complete config n s styled_names d Hf Hex)
    as (d1 & -> & Hsec & Hst).
  rewrite (for_sections_complete config t b l r) by exact Hm.
  eexists. split; [reflexivity|]. simpl. split; [exact Hst | now rewrite Hsec].
Qed.

(** X13: [_apply_document_styles] returns without an exception exactly when
    the document has the four styles, the configuration has [font] with
    [name] and [size], and either the document has no section or the
    configuration has [margins] with [top], [bottom], [left] and [right]:
    the margins are not looked up for a document without sections. *)
Theorem apply_document_styles_returns_iff (config : Config) (d : document) :
  (_apply_document_styles Pt Cm config d).1 = None <->
  (forall k, k ∈ styled_names -> is_Some (styles d !! k)) /\
  (exists n s, font config = Some {| name := Some n; size := Some s |}) /\
  (sections d = [] \/
   exists t b l r, margins config = Some {| top := Some t; bottom := Some b;
                                            left := Some l; right := Some r |}).
Proof.
  split.
  - unfold _apply_document_styles.
    destruct (for_styles Pt config styled_names d) as [[e|] d1] eqn:Hst;
      [discriminate|].
    apply for_styles_returns in Hst as (Hall & Hfont & Hsec).
    destruct (for_sections Cm config (sections d1)) as [[e|] secs] eqn:Hse;
      [discriminate|].
    intros _. split; [exact Hall|]. split; [now apply Hfont|].
    rewrite <- Hsec. exact (for_sections_returns config _ _ Hse).
  - intros (Hall & (n & s & Hfont) & [Hnil | (t & b & l & r & Hm)]).
    + unfold _apply_document_styles.
      destruct (for_styles_complete config n s styled_names d Hfont Hall)
        as (d1 & -> & Hsec & _).
      rewrite Hsec, Hnil. reflexivity.
    + unfold _apply_document_styles.
      destruct (for_styles_complete config n s styled_names d Hfont Hall)
        as (d1 & -> & _ & _).
      now rewrite (for_sections_complete config t b l r) by exact Hm.
Qed.
End StyleFacts.

Lemma apply_document_styles_effect_witness :
  let config := {| Styles.font := Some {| Styles.name := Some "Arial";
                                          Styles.size := Some 8%Z |};
                   Styles.margins :=
                     Some {| Styles.top := Some 2%Z; Styles.bottom := Some 2%Z;
                             Styles.left := Some 2%Z; Styles.right := Some 2%Z |} |} in
  let blank := {| Styles.font_name := None; Styles.font_size := None |} in
  let d := {| Styles.styles :=
                list_to_map [("Normal", blank); ("Heading 1", blank);
                             ("Heading 2", blank); ("Heading 3", blank);
                             ("Title", blank)];
              Styles.sections :=
                [{| Styles.top_margin := None; Styles.bottom_margin := None;
                    Styles.left_margin := None; Styles.right_margin := None |}] |} in
  exists d',
    Styles._apply_document_styles (Z.mul 12700) (Z.mul 360000) config d = (None, d') /\
    (forall k, Styles.styles d' !! k =
               if bool_decide (k ∈ Styles.styled_names)
               then Some {| Styles.font_name := Some "Arial";
                            Styles.font_size := Some 101600%Z |}
               else Styles.styles d !! k) /\
    Styles.sections d' =
      map (fun _ => {| Styles.top_margin := Some 720090%Z;
                       Styles.bottom_margin := Some 720090%Z;
                       Styles.left_margin := Some 720090%Z;
                       Styles.right_margin := Some 720090%Z |})
          (Styles.sections d).
Proof.
  intros config d0 d.
  refine (apply_document_styles_effect (Z.mul 12700) (Z.mul 360000) config d
            "Arial" 8%Z 2%Z 2%Z 2%Z 2%Z _ _).
  - split; reflexivity.
  - intros k Hk. unfold Styles.styled_names in Hk.
    repeat (apply elem_of_cons in Hk as [->|Hk]; [vm_compute; eauto|]).
    now apply elem_of_nil in Hk.
Defined.

(** ** The two programs from the command line *)

Section ProgramFacts.












End ProgramFacts.


Lemma render_emits_nodes_in_order_witness :
  let r := Payload.Build_Resume "Test User" "Test Title"
             [Payload.Build_Sect 1 "Achievements"
                [Payload.Build_Entry 2 "Engineer" (Some "2020") ["Built it"];
                 Payload.Build_Entry 1 "" None ["Shipped it"]]] in
  Payload.dated r = true /\
  doc (ResumeGen.generate_resume (Payload.resume_dict r) "out.docx"
         (State [] ∅ [])).2
  = [Heading "Test User" 0; Heading "Test Title" 3; Heading "Achievements" 1;
     Heading "Engineer - (2020)" 2;
     Para (Paragraph "List Bullet" [Plain "Built it"] Bullet None None);
     Para (Paragraph "List Bullet" [Plain "Shipped it"] Bullet None None)].
Proof.
  intros r. split; [reflexivity|].
  destruct (render_emits_nodes_in_order r "out.docx" (State [] ∅ []))
    as (_ & Hdoc & _); [reflexivity|].
  rewrite Hdoc. reflexivity.
Defined.
